(** * The interview session engine of the AI interviewer backend

    A shallow embedding of [backend/models/session.py] (class
    [InterviewSession]), of the worker loop of
    [backend/services/session_processor.py], of the socket handler of
    [backend/routes/websocket.py] and of the routes of
    [backend/routes/api.py], with the properties of the session record,
    the context fusion, the dialogue state machine, the question policy,
    the worker tick and the registry of sessions.

    Conventions of the embedding.
    - A Python [str] is a list of characters ([str := list ascii]), a
      character being a code point below 256 (the Latin-1 range), on which
      white space and letter case are those of Python; [len], slicing and
      concatenation are [length], [drop]/[take] and [++].
    - A reading of [time.time()] is a rational number of seconds ([Q]); the
      comparisons of the source are taken exactly.
    - Every external call (image decoding and OCR, base64 decoding, the
      transcription and generation services, the clock, the socket) is an
      input of the operation that makes it: its outcome is an argument,
      [None] standing for a raised exception.
    - The methods are [async] but each runs to completion inside the single
      worker task of its session; they are embedded as functions from a
      session to the updated session. What the handler of a method prints
      when it swallows an exception is given by a function of its own,
      [<method>_prints], that the worker puts on its trace. *)

From Stdlib Require Import Ascii String QArith Qround Lia Lqa.
From stdpp Require Import gmap strings list.

Local Open Scope nat_scope.

(** ** Text *)

Abbreviation str := (list ascii).

Definition lit (s : string) : str := list_ascii_of_string s.

(** The characters [str.split()] and [str.strip()] treat as white space
    ([str.isspace]): TAB, LF, VT, FF, CR, FS, GS, RS, US, space, and in the
    upper half NEL (U+0085) and the no-break space (U+00A0). *)
Definition is_space (c : ascii) : bool :=
  let n := nat_of_ascii c in
  ((9 <=? n) && (n <=? 13)) || ((28 <=? n) && (n <=? 32))
  || (n =? 133) || (n =? 160).

(** [c.lower()] on one character: the letters A to Z, and in the upper
    half the letters U+00C0 to U+00DE, the multiplication sign U+00D7
    apart, move 32 code points up; every other character is kept. *)
Definition lower_char (c : ascii) : ascii :=
  let n := nat_of_ascii c in
  if ((65 <=? n) && (n <=? 90))
     || ((192 <=? n) && (n <=? 222) && negb (n =? 215))
  then ascii_of_nat (n + 32) else c.

(** [s.lower()] *)
Definition lower (s : str) : str := map lower_char s.

Fixpoint drop_while (p : ascii -> bool) (s : str) : str :=
  match s with
  | [] => []
  | c :: s' => if p c then drop_while p s' else s
  end.

(** [s.strip(chars)], the characters to remove given as a predicate. *)
Definition strip_with (p : ascii -> bool) (s : str) : str :=
  rev (drop_while p (rev (drop_while p s))).

(** [s.strip()] *)
Definition strip (s : str) : str := strip_with is_space s.

Definition is_punct (c : ascii) : bool :=
  bool_decide (c ∈ lit ".,!?").

(** [s.strip(".,!?")] *)
Definition strip_punct (s : str) : str := strip_with is_punct s.

(** [s.split()]: the maximal runs of characters that are not white space.
    [cur] is the current run, reversed. *)
Fixpoint split_from (cur : str) (s : str) : list str :=
  match s with
  | [] => match cur with [] => [] | _ => [rev cur] end
  | c :: s' =>
      if is_space c
      then match cur with
           | [] => split_from [] s'
           | _ => rev cur :: split_from [] s'
           end
      else split_from (c :: cur) s'
  end.

Definition split (s : str) : list str := split_from [] s.

(** [sep.join(ws)] *)
Fixpoint join (sep : str) (ws : list str) : str :=
  match ws with
  | [] => []
  | [w] => w
  | w :: ws' => w ++ sep ++ join sep ws'
  end.

Fixpoint is_prefix (p s : str) : bool :=
  match p, s with
  | [], _ => true
  | _ :: _, [] => false
  | a :: p', b :: s' => bool_decide (a = b) && is_prefix p' s'
  end.

(** [sub in s] on strings. *)
Fixpoint contains (sub s : str) : bool :=
  is_prefix sub s ||
  match s with
  | [] => false
  | _ :: s' => contains sub s'
  end.

(** [s[-n:]] for [n > 0]: the trailing [n] characters, all of [s] when it
    is shorter. *)
Definition last_chars (n : nat) (s : str) : str := drop (length s - n) s.

(** [x < y] on clock readings and ratios. *)
Definition Qltb (x y : Q) : bool := negb (Qle_bool y x).

(** ** The session record *)

Inductive Stage := greeting | awaiting_name | project_intro | presentation.

Global Instance Stage_eq_dec : EqDecision Stage.
Proof. solve_decision. Defined.

(** The position of a stage in the scripted order. *)
Definition stage_rank (st : Stage) : nat :=
  match st with
  | greeting => 0
  | awaiting_name => 1
  | project_intro => 2
  | presentation => 3
  end.

(** An entry of [qa_pairs]: the dictionary with the keys ['question'],
    ['answer'] and ['timestamp']. *)
Record QAPair := {
  qa_question : option str;
  qa_answer : str;
  qa_timestamp : Q
}.

(** An item of the processing queue: the dictionary with the keys ['type']
    and ['content'] that the socket handler enqueues. *)
Record Event := {
  ev_type : str;
  ev_content : str
}.

Record InterviewSession := {
  session_id : str;
  websocket : bool;
  context : str;
  transcript : str;
  questions_asked : list str;
  qa_pairs : list QAPair;
  last_question_time : Q;
  last_speech_time : Q;
  evaluation_scores : gmap string Q;
  processing_queue : list Event;
  recent_ocr_texts : list str;
  waiting_for_answer : bool;
  current_question : option str;
  interview_stage : Stage;
  student_name : str;
  project_name : str;
  silence_start : option Q;
  has_spoken_recently : bool;
  last_response_time : Q
}.

(** Assignment to one attribute, [self.f = v]. *)
Definition set_websocket (v : bool) (s : InterviewSession) : InterviewSession :=
  {| session_id := session_id s;
     websocket := v;
     context := context s;
     transcript := transcript s;
     questions_asked := questions_asked s;
     qa_pairs := qa_pairs s;
     last_question_time := last_question_time s;
     last_speech_time := last_speech_time s;
     evaluation_scores := evaluation_scores s;
     processing_queue := processing_queue s;
     recent_ocr_texts := recent_ocr_texts s;
     waiting_for_answer := waiting_for_answer s;
     current_question := current_question s;
     interview_stage := interview_stage s;
     student_name := student_name s;
     project_name := project_name s;
     silence_start := silence_start s;
     has_spoken_recently := has_spoken_recently s;
     last_response_time := last_response_time s |}.

Definition set_context (v : str) (s : InterviewSession) : InterviewSession :=
  {| session_id := session_id s;
     websocket := websocket s;
     context := v;
     transcript := transcript s;
     questions_asked := questions_asked s;
     qa_pairs := qa_pairs s;
     last_question_time := last_question_time s;
     last_speech_time := last_speech_time s;
     evaluation_scores := evaluation_scores s;
     processing_queue := processing_queue s;
     recent_ocr_texts := recent_ocr_texts s;
     waiting_for_answer := waiting_for_answer s;
     current_question := current_question s;
     interview_stage := interview_stage s;
     student_name := student_name s;
     project_name := project_name s;
     silence_start := silence_start s;
     has_spoken_recently := has_spoken_recently s;
     last_response_time := last_response_time s |}.

Definition set_transcript (v : str) (s : InterviewSession) : InterviewSession :=
  {| session_id := session_id s;
     websocket := websocket s;
     context := context s;
     transcript := v;
     questions_asked := questions_asked s;
     qa_pairs := qa_pairs s;
     last_question_time := last_question_time s;
     last_speech_time := last_speech_time s;
     evaluation_scores := evaluation_scores s;
     processing_queue := processing_queue s;
     recent_ocr_texts := recent_ocr_texts s;
     waiting_for_answer := waiting_for_answer s;
     current_question := current_question s;
     interview_stage := interview_stage s;
     student_name := student_name s;
     project_name := project_name s;
     silence_start := silence_start s;
     has_spoken_recently := has_spoken_recently s;
     last_response_time := last_response_time s |}.

Definition set_questions_asked (v : list str) (s : InterviewSession) : InterviewSession :=
  {| session_id := session_id s;
     websocket := websocket s;
     context := context s;
     transcript := transcript s;
     questions_asked := v;
     qa_pairs := qa_pairs s;
     last_question_time := last_question_time s;
     last_speech_time := last_speech_time s;
     evaluation_scores := evaluation_scores s;
     processing_queue := processing_queue s;
     recent_ocr_texts := recent_ocr_texts s;
     waiting_for_answer := waiting_for_answer s;
     current_question := current_question s;
     interview_stage := interview_stage s;
     student_name := student_name s;
     project_name := project_name s;
     silence_start := silence_start s;
     has_spoken_recently := has_spoken_recently s;
     last_response_time := last_response_time s |}.

Definition set_qa_pairs (v : list QAPair) (s : InterviewSession) : InterviewSession :=
  {| session_id := session_id s;
     websocket := websocket s;
     context := context s;
     transcript := transcript s;
     questions_asked := questions_asked s;
     qa_pairs := v;
     last_question_time := last_question_time s;
     last_speech_time := last_speech_time s;
     evaluation_scores := evaluation_scores s;
     processing_queue := processing_queue s;
     recent_ocr_texts := recent_ocr_texts s;
     waiting_for_answer := waiting_for_answer s;
     current_question := current_question s;
     interview_stage := interview_stage s;
     student_name := student_name s;
     project_name := project_name s;
     silence_start := silence_start s;
     has_spoken_recently := has_spoken_recently s;
     last_response_time := last_response_time s |}.

Definition set_last_question_time (v : Q) (s : InterviewSession) : InterviewSession :=
  {| session_id := session_id s;
     websocket := websocket s;
     context := context s;
     transcript := transcript s;
     questions_asked := questions_asked s;
     qa_pairs := qa_pairs s;
     last_question_time := v;
     last_speech_time := last_speech_time s;
     evaluation_scores := evaluation_scores s;
     processing_queue := processing_queue s;
     recent_ocr_texts := recent_ocr_texts s;
     waiting_for_answer := waiting_for_answer s;
     current_question := current_question s;
     interview_stage := interview_stage s;
     student_name := student_name s;
     project_name := project_name s;
     silence_start := silence_start s;
     has_spoken_recently := has_spoken_recently s;
     last_response_time := last_response_time s |}.

Definition set_last_speech_time (v : Q) (s : InterviewSession) : InterviewSession :=
  {| session_id := session_id s;
     websocket := websocket s;
     context := context s;
     transcript := transcript s;
     questions_asked := questions_asked s;
     qa_pairs := qa_pairs s;
     last_question_time := last_question_time s;
     last_speech_time := v;
     evaluation_scores := evaluation_scores s;
     processing_queue := processing_queue s;
     recent_ocr_texts := recent_ocr_texts s;
     waiting_for_answer := waiting_for_answer s;
     current_question := current_question s;
     interview_stage := interview_stage s;
     student_name := student_name s;
     project_name := project_name s;
     silence_start := silence_start s;
     has_spoken_recently := has_spoken_recently s;
     last_response_time := last_response_time s |}.

Definition set_evaluation_scores (v : gmap string Q) (s : InterviewSession) : InterviewSession :=
  {| session_id := session_id s;
     websocket := websocket s;
     context := context s;
     transcript := transcript s;
     questions_asked := questions_asked s;
     qa_pairs := qa_pairs s;
     last_question_time := last_question_time s;
     last_speech_time := last_speech_time s;
     evaluation_scores := v;
     processing_queue := processing_queue s;
     recent_ocr_texts := recent_ocr_texts s;
     waiting_for_answer := waiting_for_answer s;
     current_question := current_question s;
     interview_stage := interview_stage s;
     student_name := student_name s;
     project_name := project_name s;
     silence_start := silence_start s;
     has_spoken_recently := has_spoken_recently s;
     last_response_time := last_response_time s |}.

Definition set_processing_queue (v : list Event) (s : InterviewSession) : InterviewSession :=
  {| session_id := session_id s;
     websocket := websocket s;
     context := context s;
     transcript := transcript s;
     questions_asked := questions_asked s;
     qa_pairs := qa_pairs s;
     last_question_time := last_question_time s;
     last_speech_time := last_speech_time s;
     evaluation_scores := evaluation_scores s;
     processing_queue := v;
     recent_ocr_texts := recent_ocr_texts s;
     waiting_for_answer := waiting_for_answer s;
     current_question := current_question s;
     interview_stage := interview_stage s;
     student_name := student_name s;
     project_name := project_name s;
     silence_start := silence_start s;
     has_spoken_recently := has_spoken_recently s;
     last_response_time := last_response_time s |}.

Definition set_recent_ocr_texts (v : list str) (s : InterviewSession) : InterviewSession :=
  {| session_id := session_id s;
     websocket := websocket s;
     context := context s;
     transcript := transcript s;
     questions_asked := questions_asked s;
     qa_pairs := qa_pairs s;
     last_question_time := last_question_time s;
     last_speech_time := last_speech_time s;
     evaluation_scores := evaluation_scores s;
     processing_queue := processing_queue s;
     recent_ocr_texts := v;
     waiting_for_answer := waiting_for_answer s;
     current_question := current_question s;
     interview_stage := interview_stage s;
     student_name := student_name s;
     project_name := project_name s;
     silence_start := silence_start s;
     has_spoken_recently := has_spoken_recently s;
     last_response_time := last_response_time s |}.

Definition set_waiting_for_answer (v : bool) (s : InterviewSession) : InterviewSession :=
  {| session_id := session_id s;
     websocket := websocket s;
     context := context s;
     transcript := transcript s;
     questions_asked := questions_asked s;
     qa_pairs := qa_pairs s;
     last_question_time := last_question_time s;
     last_speech_time := last_speech_time s;
     evaluation_scores := evaluation_scores s;
     processing_queue := processing_queue s;
     recent_ocr_texts := recent_ocr_texts s;
     waiting_for_answer := v;
     current_question := current_question s;
     interview_stage := interview_stage s;
     student_name := student_name s;
     project_name := project_name s;
     silence_start := silence_start s;
     has_spoken_recently := has_spoken_recently s;
     last_response_time := last_response_time s |}.

Definition set_current_question (v : option str) (s : InterviewSession) : InterviewSession :=
  {| session_id := session_id s;
     websocket := websocket s;
     context := context s;
     transcript := transcript s;
     questions_asked := questions_asked s;
     qa_pairs := qa_pairs s;
     last_question_time := last_question_time s;
     last_speech_time := last_speech_time s;
     evaluation_scores := evaluation_scores s;
     processing_queue := processing_queue s;
     recent_ocr_texts := recent_ocr_texts s;
     waiting_for_answer := waiting_for_answer s;
     current_question := v;
     interview_stage := interview_stage s;
     student_name := student_name s;
     project_name := project_name s;
     silence_start := silence_start s;
     has_spoken_recently := has_spoken_recently s;
     last_response_time := last_response_time s |}.

Definition set_interview_stage (v : Stage) (s : InterviewSession) : InterviewSession :=
  {| session_id := session_id s;
     websocket := websocket s;
     context := context s;
     transcript := transcript s;
     questions_asked := questions_asked s;
     qa_pairs := qa_pairs s;
     last_question_time := last_question_time s;
     last_speech_time := last_speech_time s;
     evaluation_scores := evaluation_scores s;
     processing_queue := processing_queue s;
     recent_ocr_texts := recent_ocr_texts s;
     waiting_for_answer := waiting_for_answer s;
     current_question := current_question s;
     interview_stage := v;
     student_name := student_name s;
     project_name := project_name s;
     silence_start := silence_start s;
     has_spoken_recently := has_spoken_recently s;
     last_response_time := last_response_time s |}.

Definition set_student_name (v : str) (s : InterviewSession) : InterviewSession :=
  {| session_id := session_id s;
     websocket := websocket s;
     context := context s;
     transcript := transcript s;
     questions_asked := questions_asked s;
     qa_pairs := qa_pairs s;
     last_question_time := last_question_time s;
     last_speech_time := last_speech_time s;
     evaluation_scores := evaluation_scores s;
     processing_queue := processing_queue s;
     recent_ocr_texts := recent_ocr_texts s;
     waiting_for_answer := waiting_for_answer s;
     current_question := current_question s;
     interview_stage := interview_stage s;
     student_name := v;
     project_name := project_name s;
     silence_start := silence_start s;
     has_spoken_recently := has_spoken_recently s;
     last_response_time := last_response_time s |}.

Definition set_project_name (v : str) (s : InterviewSession) : InterviewSession :=
  {| session_id := session_id s;
     websocket := websocket s;
     context := context s;
     transcript := transcript s;
     questions_asked := questions_asked s;
     qa_pairs := qa_pairs s;
     last_question_time := last_question_time s;
     last_speech_time := last_speech_time s;
     evaluation_scores := evaluation_scores s;
     processing_queue := processing_queue s;
     recent_ocr_texts := recent_ocr_texts s;
     waiting_for_answer := waiting_for_answer s;
     current_question := current_question s;
     interview_stage := interview_stage s;
     student_name := student_name s;
     project_name := v;
     silence_start := silence_start s;
     has_spoken_recently := has_spoken_recently s;
     last_response_time := last_response_time s |}.

Definition set_silence_start (v : option Q) (s : InterviewSession) : InterviewSession :=
  {| session_id := session_id s;
     websocket := websocket s;
     context := context s;
     transcript := transcript s;
     questions_asked := questions_asked s;
     qa_pairs := qa_pairs s;
     last_question_time := last_question_time s;
     last_speech_time := last_speech_time s;
     evaluation_scores := evaluation_scores s;
     processing_queue := processing_queue s;
     recent_ocr_texts := recent_ocr_texts s;
     waiting_for_answer := waiting_for_answer s;
     current_question := current_question s;
     interview_stage := interview_stage s;
     student_name := student_name s;
     project_name := project_name s;
     silence_start := v;
     has_spoken_recently := has_spoken_recently s;
     last_response_time := last_response_time s |}.

Definition set_has_spoken_recently (v : bool) (s : InterviewSession) : InterviewSession :=
  {| session_id := session_id s;
     websocket := websocket s;
     context := context s;
     transcript := transcript s;
     questions_asked := questions_asked s;
     qa_pairs := qa_pairs s;
     last_question_time := last_question_time s;
     last_speech_time := last_speech_time s;
     evaluation_scores := evaluation_scores s;
     processing_queue := processing_queue s;
     recent_ocr_texts := recent_ocr_texts s;
     waiting_for_answer := waiting_for_answer s;
     current_question := current_question s;
     interview_stage := interview_stage s;
     student_name := student_name s;
     project_name := project_name s;
     silence_start := silence_start s;
     has_spoken_recently := v;
     last_response_time := last_response_time s |}.

Definition set_last_response_time (v : Q) (s : InterviewSession) : InterviewSession :=
  {| session_id := session_id s;
     websocket := websocket s;
     context := context s;
     transcript := transcript s;
     questions_asked := questions_asked s;
     qa_pairs := qa_pairs s;
     last_question_time := last_question_time s;
     last_speech_time := last_speech_time s;
     evaluation_scores := evaluation_scores s;
     processing_queue := processing_queue s;
     recent_ocr_texts := recent_ocr_texts s;
     waiting_for_answer := waiting_for_answer s;
     current_question := current_question s;
     interview_stage := interview_stage s;
     student_name := student_name s;
     project_name := project_name s;
     silence_start := silence_start s;
     has_spoken_recently := has_spoken_recently s;
     last_response_time := v |}.

Definition initial_scores : gmap string Q :=
  {[ "technical_depth"%string := 0%Q; "clarity"%string := 0%Q;
     "originality"%string := 0%Q; "understanding"%string := 0%Q;
     "overall"%string := 0%Q ]}.

(** [InterviewSession.__init__] *)
Definition init (sid : str) : InterviewSession := {|
  session_id := sid;
  websocket := false;
  context := [];
  transcript := [];
  questions_asked := [];
  qa_pairs := [];
  last_question_time := 0;
  last_speech_time := 0;
  evaluation_scores := initial_scores;
  processing_queue := [];
  recent_ocr_texts := [];
  waiting_for_answer := false;
  current_question := None;
  interview_stage := greeting;
  student_name := [];
  project_name := [];
  silence_start := None;
  has_spoken_recently := false;
  last_response_time := 0
|}.

(** ** Context fusion: visual frames *)

(** [set(text.lower().split())] *)
Definition word_set (text : str) : gset str := list_to_set (split (lower text)).

(** [_similarity]: the Jaccard ratio of the two word sets, as the exact
    quotient of the two cardinals. *)
Definition _similarity (text1 text2 : str) : Q :=
  let words1 := word_set text1 in
  let words2 := word_set text2 in
  if bool_decide (words1 = ∅) || bool_decide (words2 = ∅) then 0
  else
    let intersection := size (words1 ∩ words2) in
    let union := size (words1 ∪ words2) in
    if 0 <? union then Z.of_nat intersection # Pos.of_nat union else 0.

(** [deque.append] on a deque of [maxlen=5]: the oldest entry leaves when
    the window is full. *)
Definition deque_append (x : str) (d : list str) : list str :=
  let d' := d ++ [x] in drop (length d' - 5) d'.

(** [any(self._similarity(extracted_text, old) > 0.8 for old in recent)].
    The source compares the double nearest to the quotient with the double
    nearest to 0.8; rounding is monotone and the two doubles differ
    whenever the exact quotient exceeds 8/10 with fewer than 10^15 words,
    so the test is the exact comparison with 8/10. *)
Definition is_duplicate (extracted_text : str) (recent : list str) : bool :=
  existsb (fun old_text => Qltb (8 # 10) (_similarity extracted_text old_text))
          recent.

(** The mark put before each OCR text in the context, a line feed and
    the tag. *)
Definition screen_tag : str := lit (String "010" "[SCREEN]: ").

(** [add_frame_context]. [extracted] is the outcome of decoding the frame
    and running the OCR engine on it: [Some text] is [extracted_text],
    [None] an exception on the way, which the method swallows. *)
Definition add_frame_context (s : InterviewSession) (extracted : option str)
  : InterviewSession :=
  match extracted with
  | None => s
  | Some extracted_text =>
      match strip extracted_text with
      | [] => s
      | _ =>
          if is_duplicate extracted_text (recent_ocr_texts s) then s
          else
            let context1 :=
              context s ++ screen_tag ++ strip extracted_text in
            let context2 :=
              if 5000 <? length context1 then last_chars 3000 context1
              else context1 in
            set_recent_ocr_texts (deque_append extracted_text (recent_ocr_texts s))
              (set_context context2 s)
      end
  end.

(** ** Context fusion: audio segments *)

(** The temporary file [audio_<session_id>_<int(time.time())>.wav] of the
    temporary directory, identified by the two values its name is built
    from. *)
Abbreviation TempFile := (str * Z)%type.

(** [int(t)] on a clock reading: truncation towards zero. *)
Definition int_of (t : Q) : Z := Z.quot (Qnum t) (Z.pos (Qden t)).

(** What writing the payload to the temporary file does. *)
Inductive WriteOutcome :=
| written            (* the file is created and filled *)
| open_raises        (* [open(temp_wav, 'wb')] raises: no file *)
| write_raises.      (* [f.write] raises: the file exists *)

(** The external calls of one [add_audio_context]. *)
Record AudioCall := {
  audio_bytes : option (list Byte.byte);  (* the decoded payload *)
  now_file : Q;                           (* the clock, for the file name *)
  write_outcome : WriteOutcome;
  transcribed : option str;               (* [transcript.text], or a raise *)
  now_speech : Q;                         (* the clock, line 105 *)
  now_answer : Q                          (* the clock, line 134 *)
}.

Definition name_markers : list str :=
  [lit "i'm"; lit "im"; lit "name"; lit "called"].

Definition project_markers : list str :=
  [lit "project"; lit "called"; lit "named"].

(** The scan [for i, word in enumerate(words)] of both extractions: the
    words after the first marker that is followed by a word,
    [words[i+1:]], at the [break]. A marker in last position lets the loop
    run out. *)
Fixpoint after_marker (markers : list str) (words : list str)
  : option (list str) :=
  match words with
  | [] => None
  | word :: rest =>
      if bool_decide (lower word ∈ markers)
      then match rest with
           | [] => after_marker markers rest
           | _ => Some rest
           end
      else after_marker markers rest
  end.

(** The branch [interview_stage == "awaiting_name"]. *)
Definition extract_name (text : str) (s : InterviewSession) : InterviewSession :=
  let words := split text in
  let s1 :=
    match after_marker name_markers words with
    | Some (next :: _) => set_student_name (strip_punct next) s
    | _ => s
    end in
  match student_name s1, words with
  | [], first :: _ => set_student_name (strip_punct first) s1
  | _, _ => s1
  end.

(** The branch [interview_stage == "project_intro"]. *)
Definition extract_project (text : str) (s : InterviewSession) : InterviewSession :=
  let lower_text := lower text in
  if contains (lit "project") lower_text || contains (lit "built") lower_text
     || contains (lit "created") lower_text
  then
    let words := split text in
    match after_marker project_markers words with
    | Some rest => set_project_name (strip_punct (join (lit " ") (take 3 rest))) s
    | None => s
    end
  else s.

(** Lines 109-128: the extraction that belongs to the current stage. *)
Definition extract_facts (text : str) (s : InterviewSession) : InterviewSession :=
  match interview_stage s with
  | awaiting_name => extract_name text s
  | project_intro => extract_project text s
  | _ => s
  end.

(** Lines 103-139: what a transcription [text] does to the session. *)
Definition ingest_transcription (text : str) (now_speech now_answer : Q)
    (s : InterviewSession) : InterviewSession :=
  match strip text with
  | [] => s
  | _ =>
      let s1 := set_transcript (transcript s ++ lit " " ++ strip text) s in
      let s2 := set_last_speech_time now_speech s1 in
      let s3 := set_has_spoken_recently true s2 in
      let s4 := set_silence_start None s3 in
      let s5 := extract_facts text s4 in
      let s6 :=
        if waiting_for_answer s5
        then set_waiting_for_answer false
               (set_qa_pairs
                  (qa_pairs s5 ++
                     [{| qa_question := current_question s5;
                         qa_answer := strip text;
                         qa_timestamp := now_answer |}]) s5)
        else s5 in
      if 3000 <? length (transcript s6)
      then set_transcript (last_chars 2000 (transcript s6)) s6
      else s6
  end.

(** [add_audio_context], on the session and the temporary files on disk.
    Every exception is caught by the one handler at the end of the method,
    which prints and returns. *)
Definition add_audio_context (s : InterviewSession) (files : gset TempFile)
    (call : AudioCall) : InterviewSession * gset TempFile :=
  match audio_bytes call with
  | None => (s, files)
  | Some bytes =>
      if length bytes <? 1000 then (s, files)
      else
        let temp_wav : TempFile := (session_id s, int_of (now_file call)) in
        match write_outcome call with
        | open_raises => (s, files)
        | write_raises => (s, {[temp_wav]} ∪ files)
        | written =>
            let files1 := {[temp_wav]} ∪ files in
            match transcribed call with
            | None => (s, files1)
            | Some text =>
                (* os.remove(temp_wav) *)
                let files2 := files1 ∖ {[temp_wav]} in
                (ingest_transcription text (now_speech call) (now_answer call) s,
                 files2)
            end
        end
  end.

(** ** Question policy *)

(** [should_ask_question], with the clock reading it starts from; it sets
    [silence_start] on the way. *)
Definition should_ask_question (s : InterviewSession) (current_time : Q)
  : bool * InterviewSession :=
  if bool_decide (interview_stage s ∈ [greeting; awaiting_name; project_intro])
  then (false, s)
  else if waiting_for_answer s then (false, s)
  else if Qltb (current_time - last_question_time s) 5 then (false, s)
  else if 5 <=? length (questions_asked s) then (false, s)
  else
    let total_content (s' : InterviewSession) :=
      length (context s' ++ transcript s') in
    if has_spoken_recently s
    then
      let s1 :=
        match silence_start s with
        | None => set_silence_start (Some current_time) s
        | Some _ => s
        end in
      if Qltb (current_time - last_speech_time s1) 5 then (false, s1)
      else (200 <? total_content s1, s1)
    else (200 <? total_content s, s).

(** ** Dialogue state machine *)

Definition greeting_text : str :=
  lit "Hello! Welcome to your project presentation interview. I'm your AI interviewer today. Before we begin, could you please tell me your name?".

Definition nice_to_meet_text (name : str) : str :=
  lit "Nice to meet you, " ++ name ++
  lit "! I'm excited to learn about your project. Could you start by telling me what you've built and what problem it solves?".

Definition name_again_text : str :=
  lit "I didn't quite catch your name. Could you please tell me your name again?".

Definition thank_you_text (name : str) : str :=
  let name_part := match name with [] => [] | _ => name ++ lit ", " end in
  lit "Thank you " ++ name_part ++
  lit "for that introduction! Please go ahead and share your screen to walk me through your project. I'll be listening carefully and will ask questions when you pause.".

Definition more_detail_text : str :=
  lit "Could you tell me a bit more about your project? What does it do?".

(** [generate_conversational_response], the [advance()] of the dialogue
    state machine, with its clock reading. *)
Definition generate_conversational_response (s : InterviewSession)
    (current_time : Q) : option str * InterviewSession :=
  if Qltb (current_time - last_response_time s) 15 then (None, s)
  else
    match interview_stage s with
    | greeting =>
        (Some greeting_text,
         set_last_response_time current_time
           (set_interview_stage awaiting_name s))
    | awaiting_name =>
        match student_name s with
        | _ :: _ =>
            (Some (nice_to_meet_text (student_name s)),
             set_last_response_time current_time
               (set_interview_stage project_intro s))
        | [] =>
            if Qltb 5 (current_time - last_response_time s)
            then (Some name_again_text, set_last_response_time current_time s)
            else (None, s)
        end
    | project_intro =>
        if 50 <? length (transcript s)
        then (Some (thank_you_text (student_name s)),
              set_last_response_time current_time
                (set_interview_stage presentation s))
        else if Qltb 5 (current_time - last_response_time s)
        then (Some more_detail_text, set_last_response_time current_time s)
        else (None, s)
    | presentation => (None, s)
    end.

(** ** Question generator *)

(** The external calls of one [generate_question]. *)
Record QuestionCall := {
  now_check : Q;             (* the clock read by [should_ask_question] *)
  generated : option str;    (* the content of the completion, or a raise *)
  now_asked : Q              (* the clock, line 247 *)
}.

(** [generate_question]. The prompt only feeds the generation service,
    whose reply is [generated]. *)
Definition generate_question (s : InterviewSession) (call : QuestionCall)
  : option str * InterviewSession :=
  let '(ask, s1) := should_ask_question s (now_check call) in
  if negb ask then (None, s1)
  else
    match generated call with
    | None => (None, s1)
    | Some content =>
        let question := strip content in
        match question with
        | [] => (None, s1)
        | _ =>
            let s2 := set_questions_asked (questions_asked s1 ++ [question]) s1 in
            let s3 := set_current_question (Some question) s2 in
            let s4 := set_waiting_for_answer true s3 in
            let s5 := set_last_question_time (now_asked call) s4 in
            (Some question, s5)
        end
    end.

(** ** Evaluation *)

(** A message put on the socket. *)
Inductive Message :=
| msg_question (question : str)                (* type "question", speak true *)
| msg_evaluation (scores : gmap string Q).     (* type "evaluation" *)

(** [dict.update] with the pairs of the parsed reply, in order. *)
Definition update_scores (scores : gmap string Q) (parsed : list (string * Q))
  : gmap string Q :=
  foldl (fun m kv => <[kv.1 := kv.2]> m) scores parsed.

(** The external calls of one [update_evaluation]. The reply read by
    [json.loads] is a JSON object, or a list of pairs, which [dict.update]
    takes as well and writes pair by pair until an element is not one:
    [parsed] are the pairs that [dict.update] writes, in order, and
    [update_completes] tells whether it returns after them or raises on
    the element that follows. The keys are strings and the values
    numbers. *)
Record EvaluationCall := {
  parsed : option (list (string * Q));  (* [None]: the completion call or
                                           [json.loads] raises *)
  update_completes : bool;              (* [dict.update] returns, line 285 *)
  evaluation_sent : bool                (* the send of line 288 returns *)
}.

(** [update_evaluation]. The second component is the message that went out
    on the socket. Every exception is swallowed by the handler of the
    method: the fields written before it stay written. *)
Definition update_evaluation (s : InterviewSession) (call : EvaluationCall)
  : InterviewSession * option Message :=
  match parsed call with
  | None => (s, None)
  | Some scores =>
      let s1 := set_evaluation_scores (update_scores (evaluation_scores s) scores) s in
      if update_completes call
      then
        if websocket s1
        then
          if evaluation_sent call
          then (s1, Some (msg_evaluation (evaluation_scores s1)))
          else (s1, None)
        else (s1, None)
      else (s1, None)
  end.

(** ** What the methods print *)

(** The methods whose handler prints the exception it swallows. The
    handler of [generate_conversational_response] is never reached:
    nothing in its [try] block raises. *)
Inductive Method :=
| in_add_frame_context       (* "OCR error", line 80 *)
| in_add_audio_context       (* "STT error", line 142 *)
| in_generate_question       (* "Question generation error", line 251 *)
| in_update_evaluation.      (* "Evaluation error", line 294 *)

(** [add_frame_context] reaches its handler. *)
Definition add_frame_context_prints (extracted : option str) : bool :=
  match extracted with
  | None => true
  | Some _ => false
  end.

(** [add_audio_context] reaches its handler; a payload under 1000 bytes
    returns before anything can raise. *)
Definition add_audio_context_prints (call : AudioCall) : bool :=
  match audio_bytes call with
  | None => true
  | Some bytes =>
      if length bytes <? 1000 then false
      else
        match write_outcome call with
        | open_raises => true
        | write_raises => true
        | written =>
            match transcribed call with
            | None => true
            | Some _ => false
            end
        end
  end.

(** [generate_question] reaches its handler: the policy has answered true
    and the completion call, or the reading of its content, raises. *)
Definition generate_question_prints (s : InterviewSession) (call : QuestionCall)
  : bool :=
  (should_ask_question s (now_check call)).1 &&
  match generated call with
  | None => true
  | Some _ => false
  end.

(** [update_evaluation] reaches its handler. *)
Definition update_evaluation_prints (s : InterviewSession) (call : EvaluationCall)
  : bool :=
  match parsed call with
  | None => true
  | Some _ =>
      if update_completes call
      then websocket s && negb (evaluation_sent call)
      else true
  end.

(** ** The worker *)

(** What the worker does that can be seen from outside the session. *)
Inductive Action :=
| act_sleep (seconds : Q)        (* [asyncio.sleep] *)
| act_send (m : Message)         (* [websocket.send_text] *)
| act_evaluate                   (* a call of [update_evaluation] *)
| act_print                      (* the handler of the loop prints the error,
                                    line 60 *)
| act_report (m : Method).       (* the handler of a method prints the
                                    exception it swallows *)

Global Instance Action_eq_dec_evaluate (a : Action) : Decision (a = act_evaluate).
Proof. destruct a; (left; reflexivity) || (right; discriminate). Defined.

(** The state of [process_session_data]: the session, the local
    [greeting_sent], the temporary files on disk and the actions so far,
    oldest first. *)
Record Worker := {
  session : InterviewSession;
  greeting_sent : bool;
  temp_files : gset TempFile;
  trace : list Action
}.

(** The external calls of one iteration of the loop. [arrivals] are the
    events the socket handler puts on the queue while the iteration runs,
    up to the moment the loop looks at the queue; what it puts later
    belongs to the next iteration. *)
Record TickCalls := {
  now_greeting : Q;              (* the clock of the greeting call, line 13 *)
  send_greeting_ok : bool;       (* the send of line 15 returns *)
  arrivals : list Event;
  frame_text : option str;       (* the OCR outcome for a frame *)
  audio_call : AudioCall;
  now_response : Q;              (* the clock of the call of line 32 *)
  question_call : QuestionCall;
  send_ok : bool;                (* the send of line 34 or 43 returns *)
  now_evaluation : Q;            (* the clock of line 49 *)
  evaluation_call : EvaluationCall;
  now_decay : Q                  (* the clock of line 53 *)
}.

(** A step of the loop body: the worker after it, and [None] in place of
    the result when the step raised. *)
Definition M (A : Type) : Type := Worker -> Worker * option A.

Global Instance M_ret : MRet M := fun A x w => (w, Some x).

Global Instance M_bind : MBind M := fun A B f m w =>
  match m w with
  | (w', Some x) => f x w'
  | (w', None) => (w', None)
  end.

Definition raise {A} : M A := fun w => (w, None).

Definition get_session : M InterviewSession := fun w => (w, Some (session w)).

Definition put_session (s : InterviewSession) : M unit := fun w =>
  ({| session := s; greeting_sent := greeting_sent w;
      temp_files := temp_files w; trace := trace w |}, Some tt).

Definition emit (a : Action) : M unit := fun w =>
  ({| session := session w; greeting_sent := greeting_sent w;
      temp_files := temp_files w; trace := trace w ++ [a] |}, Some tt).

Definition set_greeting_sent : M unit := fun w =>
  ({| session := session w; greeting_sent := true;
      temp_files := temp_files w; trace := trace w |}, Some tt).

(** [await session.websocket.send_text(...)]: the message goes out, or the
    call raises. *)
Definition send (ok : bool) (m : Message) : M unit :=
  if ok then emit (act_send m) else raise.

(** [time.time() % 60] *)
Definition mod60 (t : Q) : Q := t - 60 * inject_Z (Qfloor (t / 60)).

(** The condition of line 49. *)
Definition evaluation_due (s : InterviewSession) (now : Q) : bool :=
  (0 <? length (questions_asked s)) && Qltb (mod60 now) 1.

(** Lines 11-20. *)
Definition greeting_step (c : TickCalls) : M unit := fun w =>
  if negb (greeting_sent w) && websocket (session w)
  then
    (emit (act_sleep 2);;
     s ← get_session;
     let '(greeting_msg, s') := generate_conversational_response s (now_greeting c) in
     put_session s';;
     match greeting_msg with
     | Some text =>
         send (send_greeting_ok c) (msg_question text);;
         set_greeting_sent
     | None => mret tt
     end) w
  else (w, Some tt).

(** The print of the handler of the method [m], when [printed]. *)
Definition report (printed : bool) (m : Method) : M unit :=
  if printed then emit (act_report m) else mret tt.

(** Lines 25-47: the dispatch on the dequeued item. *)
Definition handle_event (c : TickCalls) (data : Event) : M unit :=
  if bool_decide (ev_type data = lit "frame")
  then
    s ← get_session;
    put_session (add_frame_context s (frame_text c));;
    report (add_frame_context_prints (frame_text c)) in_add_frame_context
  else if bool_decide (ev_type data = lit "audio")
  then
    (fun w =>
       let '(s', files') := add_audio_context (session w) (temp_files w) (audio_call c) in
       ({| session := s'; greeting_sent := greeting_sent w;
           temp_files := files'; trace := trace w |}, Some tt));;
    report (add_audio_context_prints (audio_call c)) in_add_audio_context;;
    s ← get_session;
    if bool_decide (interview_stage s ∈ [awaiting_name; project_intro])
    then
      emit (act_sleep 1);;
      let '(response, s') := generate_conversational_response s (now_response c) in
      put_session s';;
      match response with
      | Some text =>
          if websocket s' then send (send_ok c) (msg_question text) else mret tt
      | None => mret tt
      end
    else if bool_decide (interview_stage s = presentation)
    then
      let '(question, s') := generate_question s (question_call c) in
      put_session s';;
      report (generate_question_prints s (question_call c)) in_generate_question;;
      match question with
      | Some text =>
          if websocket s' then send (send_ok c) (msg_question text) else mret tt
      | None => mret tt
      end
    else mret tt
  else mret tt.

(** Lines 49-50. *)
Definition evaluation_step (c : TickCalls) : M unit :=
  s ← get_session;
  if evaluation_due s (now_evaluation c)
  then
    emit act_evaluate;;
    let '(s', m) := update_evaluation s (evaluation_call c) in
    put_session s';;
    (match m with
     | Some m => emit (act_send m)
     | None => mret tt
     end);;
    report (update_evaluation_prints s (evaluation_call c)) in_update_evaluation
  else mret tt.

(** Lines 22-50: the block guarded by [not session.processing_queue.empty()]. *)
Definition queue_step (c : TickCalls) : M unit :=
  s ← get_session;
  match processing_queue s with
  | [] => mret tt
  | data :: rest =>
      put_session (set_processing_queue rest s);;
      handle_event c data;;
      evaluation_step c
  end.

(** Lines 52-55. *)
Definition decay_step (c : TickCalls) : M unit :=
  s ← get_session;
  if has_spoken_recently s && Qltb 3 (now_decay c - last_speech_time s)
  then put_session (set_has_spoken_recently false s)
  else mret tt.

(** The socket handler putting the events that arrive on the queue. *)
Definition enqueue (evs : list Event) : M unit :=
  s ← get_session;
  put_session (set_processing_queue (processing_queue s ++ evs) s).

(** The body of the [try] of the loop. The arrivals are on the queue
    whatever becomes of the body: the greeting step does not look at the
    queue, so that they are put first. *)
Definition tick_body (c : TickCalls) : M unit :=
  enqueue (arrivals c);;
  greeting_step c;;
  queue_step c;;
  decay_step c;;
  emit (act_sleep (1 # 10)).

(** One iteration of [while True]: the body, and the handler of the loop
    when the body raises. *)
Definition tick (w : Worker) (c : TickCalls) : Worker :=
  match tick_body c w with
  | (w', Some _) => w'
  | (w', None) => fst ((emit act_print;; emit (act_sleep 1)) w')
  end.

(** The number of calls of [update_evaluation] in a trace. *)
Definition evaluations (w : Worker) : nat :=
  length (filter (fun a => a = act_evaluate) (trace w)).

(** ** Sequences of operations on a session *)

(** The operations that change a session record: the methods of the class,
    each with its external calls, and the assignments made from outside
    the class (the worker clearing [has_spoken_recently], the socket
    handler attaching the socket and filling the queue, the worker taking
    an item). *)
Inductive Op :=
| op_frame (extracted : option str)
| op_audio (call : AudioCall)
| op_advance (now : Q)
| op_should_ask (now : Q)
| op_question (call : QuestionCall)
| op_evaluate (call : EvaluationCall)
| op_decay
| op_attach
| op_put (data : Event)
| op_get.

Definition apply_op (s : InterviewSession) (op : Op) : InterviewSession :=
  match op with
  | op_frame extracted => add_frame_context s extracted
  | op_audio call => (add_audio_context s ∅ call).1
  | op_advance now => (generate_conversational_response s now).2
  | op_should_ask now => (should_ask_question s now).2
  | op_question call => (generate_question s call).2
  | op_evaluate call => (update_evaluation s call).1
  | op_decay => set_has_spoken_recently false s
  | op_attach => set_websocket true s
  | op_put data => set_processing_queue (processing_queue s ++ [data]) s
  | op_get => set_processing_queue (tail (processing_queue s)) s
  end.

(** The session after the operations [ops], in order. *)
Definition run (s : InterviewSession) (ops : list Op) : InterviewSession :=
  foldl apply_op s ops.

(** A frame ingestion appends its text to the context: the text is not
    blank and no entry of the window is a near-duplicate of it. *)
Definition accepts (s : InterviewSession) (extracted_text : str) : bool :=
  match strip extracted_text with
  | [] => false
  | _ => negb (is_duplicate extracted_text (recent_ocr_texts s))
  end.

(** The OCR texts appended to the context along [ops], oldest first. *)
Fixpoint accepted (s : InterviewSession) (ops : list Op) : list str :=
  match ops with
  | [] => []
  | op :: ops' =>
      match op with
      | op_frame (Some extracted_text) =>
          if accepts s extracted_text then [extracted_text] else []
      | _ => []
      end ++ accepted (apply_op s op) ops'
  end.

(** The last [n] elements of a list. *)
Definition last_n {A} (n : nat) (l : list A) : list A := drop (length l - n) l.

(** The clock readings at which the dialogue state machine produced a
    message along [ops], oldest first. *)
Fixpoint response_times (s : InterviewSession) (ops : list Op) : list Q :=
  match ops with
  | [] => []
  | op :: ops' =>
      match op with
      | op_advance now =>
          match (generate_conversational_response s now).1 with
          | Some _ => [now]
          | None => []
          end
      | _ => []
      end ++ response_times (apply_op s op) ops'
  end.

(** Each element of [ts] is at least [gap] after the one before it. *)
Fixpoint spaced (gap : Q) (ts : list Q) : Prop :=
  match ts with
  | t1 :: ((t2 :: _) as ts') => (t1 + gap <= t2)%Q /\ spaced gap ts'
  | _ => True
  end.

(** The invariant that ties [waiting_for_answer] to [current_question]. *)
Definition question_outstanding (s : InterviewSession) : Prop :=
  waiting_for_answer s = true ->
  exists question, current_question s = Some question /\ question <> [].

(** The attributes that no audio ingestion writes. *)
Definition audio_frame (s s' : InterviewSession) : Prop :=
  interview_stage s' = interview_stage s /\
  last_response_time s' = last_response_time s /\
  context s' = context s /\
  recent_ocr_texts s' = recent_ocr_texts s /\
  current_question s' = current_question s /\
  questions_asked s' = questions_asked s.

(** The stage is [greeting] only as long as no response was stamped. *)
Definition unstamped_greeting (s : InterviewSession) : Prop :=
  interview_stage s = greeting -> last_response_time s = 0%Q.

(** A step of the worker that never calls [update_evaluation]. *)
Definition quiet {A} (m : M A) : Prop :=
  forall w w' r, m w = (w', r) -> evaluations w' = evaluations w.

(** [s'] is [s] after some operations. *)
Inductive reaches (s : InterviewSession) : InterviewSession -> Prop :=
| reaches_refl : reaches s s
| reaches_step s' op : reaches s s' -> reaches s (apply_op s' op).

(** From the worker [w], the step [m] changes the session by operations
    only. *)
Definition sound_at {A} (w : Worker) (m : M A) : Prop :=
  forall w' r, m w = (w', r) -> reaches (session w) (session w').

(** The worker after the iterations whose calls are [cs], in order. *)
Definition ticks (w : Worker) (cs : list TickCalls) : Worker :=
  foldl tick w cs.

(** ** Sample sessions and calls *)

(** An evaluation whose reply is the JSON object with the fields [scores],
    merged and sent without an exception. *)
Definition scored (scores : list (string * Q)) : EvaluationCall := {|
  parsed := Some scores;
  update_completes := true;
  evaluation_sent := true
|}.

(** An evaluation whose completion call raises. *)
Definition unscored : EvaluationCall := {|
  parsed := None;
  update_completes := true;
  evaluation_sent := true
|}.

(** A payload of 1000 zero bytes received at time [t] and transcribed as
    [text]. *)
Definition speech (text : string) (t : Q) : AudioCall := {|
  audio_bytes := Some (replicate 1000 Byte.x00);
  now_file := t;
  write_outcome := written;
  transcribed := Some (lit text);
  now_speech := t + 1;
  now_answer := t + 2
|}.

(** A payload of 1000 zero bytes whose transcription raises. *)
Definition failing_audio_call : AudioCall := {|
  audio_bytes := Some (replicate 1000 Byte.x00);
  now_file := 100;
  write_outcome := written;
  transcribed := None;
  now_speech := 101;
  now_answer := 101
|}.

(** A session in the presentation stage with the question "Why?"
    outstanding and some speech already in the transcript. *)
Definition waiting_session : InterviewSession :=
  set_waiting_for_answer true
    (set_current_question (Some (lit "Why?"))
       (set_questions_asked [lit "Why?"]
          (set_transcript (lit " I built a compiler")
             (set_interview_stage presentation (init (lit "s1")))))).

(** The answer " Because. " to it. *)
Definition answer_call : AudioCall := speech " Because. " 100.

(** A session in the presentation stage with five questions asked, no
    question outstanding, 300 characters of context and idle timers. *)
Definition full_session : InterviewSession :=
  set_questions_asked [lit "q1"; lit "q2"; lit "q3"; lit "q4"; lit "q5"]
    (set_context (replicate 300 "a"%char)
       (set_interview_stage presentation (init (lit "s1")))).

(** A session whose context holds 4995 characters. *)
Definition crowded_session : InterviewSession :=
  set_context (replicate 4995 "a"%char) (init (lit "s1")).

(** An interview up to its first question. *)
Definition interview : list Op :=
  [ op_attach;
    op_advance 1000;
    op_audio (speech "I'm Alex." 1005);
    op_advance 1020;
    op_audio (speech "I built a project called Tiny Compiler, it turns arithmetic into bytecode." 1030);
    op_advance 1040;
    op_frame (Some (replicate 250 "x"%char));
    op_question {| now_check := 1050;
                   generated := Some (lit " Why bytecode? ");
                   now_asked := 1051 |} ].

(** Six frames with six different texts. *)
Definition six_frames : list Op :=
  map (fun text => op_frame (Some (lit text)))
    ["alpha"; "beta"; "gamma"; "delta"; "epsilon"; "zeta"]%string.

(** A worker past its greeting, in the presentation stage, with one
    question asked and an empty queue. *)
Definition idle_worker : Worker := {|
  session :=
    set_questions_asked [lit "Why?"]
      (set_interview_stage presentation (set_websocket true (init (lit "s1"))));
  greeting_sent := true;
  temp_files := ∅;
  trace := []
|}.

(** The calls of an iteration at clock 120, a multiple of 60, during which
    the events [evs] arrive. *)
Definition calls_at_120 (evs : list Event) : TickCalls := {|
  now_greeting := 120;
  send_greeting_ok := true;
  arrivals := evs;
  frame_text := Some (lit "slide one");
  audio_call := speech "hello" 120;
  now_response := 120;
  question_call := {| now_check := 120; generated := None; now_asked := 120 |};
  send_ok := true;
  now_evaluation := 120;
  evaluation_call := scored [("clarity"%string, 7%Q)];
  now_decay := 120
|}.

Definition frame_event : Event := {| ev_type := lit "frame"; ev_content := [] |}.

(** The calls of an iteration at clock 120 on a frame whose OCR fails,
    with an evaluation whose reply is merged and whose send is refused. *)
Definition failing_calls : TickCalls := {|
  now_greeting := 120;
  send_greeting_ok := true;
  arrivals := [frame_event];
  frame_text := None;
  audio_call := speech "hello" 120;
  now_response := 120;
  question_call := {| now_check := 120; generated := None; now_asked := 120 |};
  send_ok := true;
  now_evaluation := 120;
  evaluation_call := {| parsed := Some [("clarity"%string, 7%Q)];
                        update_completes := true;
                        evaluation_sent := false |};
  now_decay := 120
|}.

(** A worker just created by the socket handler. *)
Definition fresh_worker : Worker := {|
  session := set_websocket true (init (lit "s1"));
  greeting_sent := false;
  temp_files := ∅;
  trace := []
|}.


(** ** Groups of attributes and predicates on the steps of the worker *)

(** The attributes that only the audio ingestion writes, and that it
    writes only when a transcription that is not blank arrives. *)
Definition speech_state (s : InterviewSession) :=
  (transcript s, student_name s, project_name s, last_speech_time s).

(** The attributes of the question and answer bookkeeping. *)
Definition question_state (s : InterviewSession) :=
  (questions_asked s, qa_pairs s, waiting_for_answer s, current_question s,
   last_question_time s).

(** The questions of the recorded answers, followed by the outstanding
    question if there is one, are the questions asked. *)
Definition answers_follow_questions (s : InterviewSession) : Prop :=
  map qa_question (qa_pairs s) ++
    (if waiting_for_answer s then [current_question s] else [])
  = map Some (questions_asked s).

(** From the worker [w], the step [m] leaves the queue as it is. *)
Definition keeps_queue_at {A} (w : Worker) (m : M A) : Prop :=
  forall w' r, m w = (w', r) ->
  processing_queue (session w') = processing_queue (session w).




(** ** The registry, the socket handler and the HTTP routes *)

(** [active_sessions] of config.py. A session is one object, shared by the
    registry, its socket handler and its worker: an entry holds the
    session together with the state of its worker. A handler is named by
    the identifier that [uuid.uuid4()] has drawn for its connection. *)
Abbreviation Registry := (gmap str Worker).

(** The session and the worker that lines 15-20 of the socket handler
    create for the identifier [sid]. *)
Definition new_worker (sid : str) : Worker := {|
  session := set_websocket true (init sid);
  greeting_sent := false;
  temp_files := ∅;
  trace := []
|}.

(** What [receive_text] and [json.loads] give to [websocket_endpoint]: a
    disconnect, or a text, [None] when it is not a JSON object (the
    decoding or the subscripts of lines 33-34 raise) and else its keys
    with their values, which the client sends as strings. *)
Inductive Received :=
| recv_disconnect
| recv_text (message : option (gmap string str)).

(** The item of lines 32-35, [None] when a subscript raises [KeyError]. *)
Definition event_of (message : gmap string str) : option Event :=
  ty ← message !! "type"%string;
  data ← message !! "data"%string;
  Some {| ev_type := ty; ev_content := data |}.

(** [websocket_endpoint], lines 41-44: the [finally] clause. *)
Definition endpoint_close (sid : str) (reg : Registry) : Registry :=
  delete sid reg.

(** [websocket_endpoint], lines 13-26: the session is registered under
    the identifier drawn for the connection; [sent] tells whether the send
    of the identifier returns. *)
Definition endpoint_open (sid : str) (sent : bool) (reg : Registry) : Registry :=
  let reg' := <[sid := new_worker sid]> reg in
  if sent then reg' else endpoint_close sid reg'.

(** [session.processing_queue.put(ev)] by the handler. *)
Definition put_event (ev : Event) (w : Worker) : Worker := {|
  session := set_processing_queue (processing_queue (session w) ++ [ev]) (session w);
  greeting_sent := greeting_sent w;
  temp_files := temp_files w;
  trace := trace w
|}.

(** [websocket_endpoint], lines 29-44: one pass of the receive loop of the
    handler of [sid]. *)
Definition endpoint_receive (sid : str) (r : Received) (reg : Registry) : Registry :=
  match r with
  | recv_text (Some message) =>
      match event_of message with
      | Some ev => alter (put_event ev) sid reg
      | None => endpoint_close sid reg
      end
  | recv_text None => endpoint_close sid reg
  | recv_disconnect => endpoint_close sid reg
  end.

(** The outcome of the completion call of the report route. *)
Inductive Reply :=
| reply_content (text : str)
| reply_raises (error : str).

(** The dictionaries returned by [generate_report]. *)
Inductive Response :=
| resp_error (error : str)
| resp_report (sid report : str) (scores : gmap string Q) (asked : nat)
    (pairs : list QAPair) (student project : str).

(** [generate_report]. The prompt only feeds the completion call, whose
    outcome is [reply]. The route reads the fields of the report after
    that call: [later] are the operations made on the session while the
    route awaits it. *)
Definition generate_report (reg : Registry) (sid : str) (reply : Reply)
    (later : list Op) : Response :=
  match reg !! sid with
  | None => resp_error (lit "Session not found")
  | Some w =>
      match reply with
      | reply_raises error => resp_error error
      | reply_content report =>
          let s := run (session w) later in
          resp_report sid report (evaluation_scores s)
            (length (questions_asked s)) (qa_pairs s)
            (student_name s) (project_name s)
      end
  end.

(** [health_check] *)
Definition health_check (reg : Registry) : str * nat :=
  (lit "healthy", size reg).

(** The steps of the server: a connection opens, a handler passes its
    receive loop once, a worker runs one iteration. A worker whose
    session has left the registry has been cancelled. *)
Inductive ServerStep :=
| sv_open (sid : str) (sent : bool)
| sv_receive (sid : str) (r : Received)
| sv_tick (sid : str) (c : TickCalls).

Definition server_step (reg : Registry) (st : ServerStep) : Registry :=
  match st with
  | sv_open sid sent => endpoint_open sid sent reg
  | sv_receive sid r => endpoint_receive sid r reg
  | sv_tick sid c => alter (fun w => tick w c) sid reg
  end.

(** The registry after the steps [steps] of a server just started. *)
Definition serve (steps : list ServerStep) : Registry :=
  foldl server_step ∅ steps.

(** Every registered session has been reached from the initial session of
    its identifier. *)
Definition served (reg : Registry) : Prop :=
  forall sid w, reg !! sid = Some w -> reaches (init sid) (session w).

(** * Properties *)

(** ** Text and clock helpers *)

Lemma Qltb_lt x y : Qltb x y = true <-> (x < y)%Q.
Proof.
  unfold Qltb. rewrite negb_true_iff. split.
  - intros H. apply Qnot_le_lt. intros Hle.
    apply Qle_bool_iff in Hle. congruence.
  - intros H. destruct (Qle_bool y x) eqn:E; [|done].
    apply Qle_bool_iff in E. exfalso. lra.
Qed.

Lemma Qltb_ge x y : Qltb x y = false <-> (y <= x)%Q.
Proof.
  unfold Qltb. rewrite negb_false_iff. apply Qle_bool_iff.
Qed.

(** The white space of the character range, and the characters that
    [lower] changes: each moves 32 code points up. *)
Example white_space_characters :
  List.filter (fun n => is_space (ascii_of_nat n)) (seq 0 256)
    = [9; 10; 11; 12; 13; 28; 29; 30; 31; 32; 133; 160].
Proof. vm_compute. reflexivity. Qed.

Example lower_case_characters :
  List.filter (fun n => negb (nat_of_ascii (lower_char (ascii_of_nat n)) =? n))
              (seq 0 256)
    = seq 65 26 ++ seq 192 23 ++ seq 216 7 /\
  forallb (fun n => nat_of_ascii (lower_char (ascii_of_nat n)) =? n + 32)
          (seq 65 26 ++ seq 192 23 ++ seq 216 7) = true.
Proof. vm_compute. split; reflexivity. Qed.

Lemma last_chars_length n (t : str) :
  n <= length t -> length (last_chars n t) = n.
Proof. intros H. unfold last_chars. rewrite length_drop. lia. Qed.

(** [t[-n:]] is the end of [t]. *)
Lemma last_chars_suffix n (t : str) :
  exists dropped, t = dropped ++ last_chars n t.
Proof.
  exists (take (length t - n) t). unfold last_chars. symmetry. apply take_drop.
Qed.

Lemma forallb_rev_str p (t : str) : forallb p (rev t) = forallb p t.
Proof.
  induction t as [|c t IH]; [reflexivity|].
  simpl. rewrite forallb_app, IH. simpl. rewrite andb_true_r. apply andb_comm.
Qed.

Lemma drop_while_split p (t : str) :
  exists lead, t = lead ++ drop_while p t /\ forallb p lead = true.
Proof.
  induction t as [|c t (lead & E & H)]; simpl.
  - exists []. auto.
  - destruct (p c) eqn:Ec.
    + exists (c :: lead). simpl. rewrite Ec, H, <- E. auto.
    + exists []. auto.
Qed.

Lemma drop_while_head p (t : str) c :
  head (drop_while p t) = Some c -> p c = false.
Proof.
  induction t as [|a t IH]; simpl; [discriminate|].
  destruct (p a) eqn:Ea; [exact IH|]. simpl. intros [= <-]. exact Ea.
Qed.

Lemma last_rev_head {A} (l : list A) : last (rev l) = head l.
Proof. destruct l; [reflexivity|]. simpl. apply last_snoc. Qed.

(** [t.strip(chars)] is [t] without a run of [chars] at each end, and it
    neither starts nor ends with one of [chars]. *)
Lemma strip_with_spec p (t : str) :
  exists lead trail,
    t = lead ++ strip_with p t ++ trail /\
    forallb p lead = true /\
    forallb p trail = true /\
    (forall c, head (strip_with p t) = Some c -> p c = false) /\
    (forall c, last (strip_with p t) = Some c -> p c = false).
Proof.
  unfold strip_with.
  destruct (drop_while_split p t) as (lead & E1 & H1).
  pose proof (drop_while_head p t) as Hd.
  destruct (drop_while_split p (rev (drop_while p t))) as (l2 & E2 & H2).
  pose proof (drop_while_head p (rev (drop_while p t))) as He.
  set (d := drop_while p t) in *.
  set (e := drop_while p (rev d)) in *.
  assert (Ed : d = rev e ++ rev l2).
  { rewrite <- (rev_involutive d), E2, rev_app_distr. reflexivity. }
  clearbody e. clearbody d.
  exists lead, (rev l2). repeat split.
  - rewrite E1, Ed. reflexivity.
  - exact H1.
  - rewrite forallb_rev_str. exact H2.
  - intros c Hc. apply Hd. rewrite Ed.
    destruct (rev e); [discriminate|exact Hc].
  - intros c Hc. apply He. rewrite <- last_rev_head. exact Hc.
Qed.

Lemma last_n_short {A} n (l : list A) : length l <= n -> last_n n l = l.
Proof.
  intros H. unfold last_n. replace (length l - n) with 0 by lia. reflexivity.
Qed.

Lemma last_n_length {A} n (l : list A) : length (last_n n l) <= n.
Proof. unfold last_n. rewrite length_drop. lia. Qed.

Lemma last_n_app_last_n {A} n (l l' : list A) :
  last_n n (last_n n l ++ l') = last_n n (l ++ l').
Proof.
  destruct (Nat.le_gt_cases (length l) n) as [H|H].
  - rewrite (last_n_short n l H). reflexivity.
  - unfold last_n. rewrite !length_app, length_drop.
    replace (length l - (length l - n) + length l' - n) with (length l') by lia.
    replace (length l + length l' - n) with ((length l - n) + length l') by lia.
    rewrite <- drop_drop.
    rewrite (drop_app_le l l' (length l - n)) by lia.
    reflexivity.
Qed.

Example split_example :
  split (lit "  Hello   big world ") = [lit "Hello"; lit "big"; lit "world"].
Proof. reflexivity. Qed.

Example strip_example : strip (lit "  a b  ") = lit "a b".
Proof. reflexivity. Qed.

Example strip_punct_example : strip_punct (lit "Alex.!") = lit "Alex".
Proof. reflexivity. Qed.

Example similarity_example :
  _similarity (lit "a b c d E") (lit "a b c d e f") = (5 # 6)%Q.
Proof. vm_compute. reflexivity. Qed.

Example similarity_of_blank : _similarity (lit "  ") (lit "a b") = 0%Q.
Proof. vm_compute. reflexivity. Qed.

(** ** What each method leaves alone *)

Lemma extract_name_keeps t s :
  audio_frame s (extract_name t s) /\
  waiting_for_answer (extract_name t s) = waiting_for_answer s /\
  qa_pairs (extract_name t s) = qa_pairs s.
Proof.
  unfold extract_name, audio_frame.
  destruct (after_marker name_markers (split t)) as [[|next rest]|];
    simpl; destruct (split t); repeat (simpl; case_match); auto 10.
Qed.

Lemma extract_project_keeps t s :
  audio_frame s (extract_project t s) /\
  waiting_for_answer (extract_project t s) = waiting_for_answer s /\
  qa_pairs (extract_project t s) = qa_pairs s.
Proof.
  unfold extract_project, audio_frame. repeat case_match; auto 10.
Qed.

Lemma extract_facts_keeps text s :
  audio_frame s (extract_facts text s) /\
  waiting_for_answer (extract_facts text s) = waiting_for_answer s /\
  qa_pairs (extract_facts text s) = qa_pairs s.
Proof.
  unfold extract_facts. destruct (interview_stage s).
  - unfold audio_frame; auto 10.
  - apply extract_name_keeps.
  - apply extract_project_keeps.
  - unfold audio_frame; auto 10.
Qed.

Lemma ingest_transcription_frame text t1 t2 s :
  audio_frame s (ingest_transcription text t1 t2 s) /\
  (waiting_for_answer (ingest_transcription text t1 t2 s) = true ->
   waiting_for_answer s = true).
Proof.
  unfold ingest_transcription.
  destruct (strip text) as [|c rest] eqn:Hs; [unfold audio_frame; auto 10|].
  set (s4 := set_silence_start _ _).
  assert (H4 : audio_frame s s4 /\
               waiting_for_answer s4 = waiting_for_answer s)
    by (subst s4; unfold audio_frame; simpl; auto 10).
  clearbody s4. destruct H4 as (H4 & Hw4).
  destruct (extract_facts_keeps text s4) as (Hf & Hw & _).
  set (s5 := extract_facts text s4) in *. clearbody s5.
  unfold audio_frame in *.
  destruct (waiting_for_answer s5) eqn:E5; case_match; simpl;
    intuition congruence.
Qed.

Lemma add_audio_context_frame s files call :
  audio_frame s (add_audio_context s files call).1 /\
  (waiting_for_answer (add_audio_context s files call).1 = true ->
   waiting_for_answer s = true).
Proof.
  unfold add_audio_context.
  assert (Hs : audio_frame s s) by (unfold audio_frame; auto 10).
  destruct (audio_bytes call) as [bytes|]; [|auto].
  destruct (length bytes <? 1000); [auto|].
  destruct (write_outcome call); [|auto|auto].
  destruct (transcribed call) as [text|]; [|auto].
  apply ingest_transcription_frame.
Qed.

Lemma add_frame_context_frame s extracted s' :
  s' = add_frame_context s extracted ->
  interview_stage s' = interview_stage s /\
  last_response_time s' = last_response_time s /\
  waiting_for_answer s' = waiting_for_answer s /\
  current_question s' = current_question s.
Proof.
  intros ->. unfold add_frame_context.
  destruct extracted as [text|]; [|auto].
  destruct (strip text); [auto|].
  destruct (is_duplicate _ _); [auto|].
  simpl. auto.
Qed.

Lemma should_ask_question_frame s now s' :
  s' = (should_ask_question s now).2 ->
  interview_stage s' = interview_stage s /\
  last_response_time s' = last_response_time s /\
  context s' = context s /\
  recent_ocr_texts s' = recent_ocr_texts s /\
  waiting_for_answer s' = waiting_for_answer s /\
  current_question s' = current_question s /\
  questions_asked s' = questions_asked s.
Proof.
  intros ->. unfold should_ask_question. repeat case_match; simpl; auto 10.
Qed.

Lemma generate_question_frame s call s' :
  s' = (generate_question s call).2 ->
  interview_stage s' = interview_stage s /\
  last_response_time s' = last_response_time s /\
  context s' = context s /\
  recent_ocr_texts s' = recent_ocr_texts s.
Proof.
  intros ->. unfold generate_question.
  pose proof (should_ask_question_frame s (now_check call) _ eq_refl) as H.
  destruct (should_ask_question s (now_check call)) as [ask s1].
  simpl in H. destruct H as (H1 & H2 & H3 & H4 & _).
  repeat case_match; simpl; auto.
Qed.

Lemma generate_conversational_response_frame s now s' :
  s' = (generate_conversational_response s now).2 ->
  context s' = context s /\
  recent_ocr_texts s' = recent_ocr_texts s /\
  waiting_for_answer s' = waiting_for_answer s /\
  current_question s' = current_question s.
Proof.
  intros ->. unfold generate_conversational_response.
  repeat case_match; simpl; auto.
Qed.

(** The session that [update_evaluation] leaves: the scores are merged
    whenever the reply is parsed, whatever happens next. *)
Lemma update_evaluation_session s call :
  (update_evaluation s call).1 =
    match parsed call with
    | None => s
    | Some scores =>
        set_evaluation_scores (update_scores (evaluation_scores s) scores) s
    end.
Proof.
  unfold update_evaluation. destruct (parsed call); [|reflexivity].
  destruct (update_completes call); [|reflexivity].
  destruct (websocket _); [|reflexivity].
  destruct (evaluation_sent call); reflexivity.
Qed.

Lemma update_evaluation_frame s call s' :
  s' = (update_evaluation s call).1 ->
  interview_stage s' = interview_stage s /\
  last_response_time s' = last_response_time s /\
  context s' = context s /\
  recent_ocr_texts s' = recent_ocr_texts s /\
  waiting_for_answer s' = waiting_for_answer s /\
  current_question s' = current_question s.
Proof.
  intros ->. rewrite update_evaluation_session.
  destruct (parsed call); simpl; auto 10.
Qed.

(** Only the dialogue state machine writes the stage and its time stamp. *)
Lemma apply_op_keeps_stage (s : InterviewSession) (op : Op) :
  (forall now, op <> op_advance now) ->
  interview_stage (apply_op s op) = interview_stage s /\
  last_response_time (apply_op s op) = last_response_time s.
Proof.
  intros Hop. destruct op; simpl.
  - destruct (add_frame_context_frame s extracted _ eq_refl) as (? & ? & _); auto.
  - destruct (add_audio_context_frame s ∅ call) as ((? & ? & _) & _); auto.
  - exfalso. eapply Hop. reflexivity.
  - destruct (should_ask_question_frame s now _ eq_refl) as (? & ? & _); auto.
  - destruct (generate_question_frame s call _ eq_refl) as (? & ? & _); auto.
  - destruct (update_evaluation_frame s call _ eq_refl) as (? & ? & _); auto.
  - auto.
  - auto.
  - auto.
  - auto.
Qed.

(** Only the frame ingestion writes the context and the window. *)
Lemma apply_op_keeps_context (s : InterviewSession) (op : Op) :
  (forall extracted, op <> op_frame extracted) ->
  context (apply_op s op) = context s /\
  recent_ocr_texts (apply_op s op) = recent_ocr_texts s.
Proof.
  intros Hop. destruct op; simpl.
  - exfalso. eapply Hop. reflexivity.
  - destruct (add_audio_context_frame s ∅ call)
      as ((_ & _ & ? & ? & _) & _); auto.
  - destruct (generate_conversational_response_frame s now _ eq_refl)
      as (? & ? & _); auto.
  - destruct (should_ask_question_frame s now _ eq_refl)
      as (_ & _ & ? & ? & _); auto.
  - destruct (generate_question_frame s call _ eq_refl)
      as (_ & _ & ? & ?); auto.
  - destruct (update_evaluation_frame s call _ eq_refl)
      as (_ & _ & ? & ? & _); auto.
  - auto.
  - auto.
  - auto.
  - auto.
Qed.

(** ** Audio ingestion and the temporary file *)

Section AudioFile.
Variables (s : InterviewSession) (files : gset TempFile) (call : AudioCall).
Variable bytes : list Byte.byte.
Hypothesis Hbytes : audio_bytes call = Some bytes.
Hypothesis Hsize : 1000 <= length bytes.
Hypothesis Hwritten : write_outcome call = written.

Let temp_wav : TempFile := (session_id s, int_of (now_file call)).

Lemma add_audio_context_transcribed text :
  transcribed call = Some text ->
  add_audio_context s files call =
    (ingest_transcription text (now_speech call) (now_answer call) s,
     ({[temp_wav]} ∪ files) ∖ {[temp_wav]}).
Proof using Hbytes Hsize Hwritten.
  intros Ht. unfold add_audio_context.
  rewrite Hbytes, Hwritten, Ht.
  destruct (Nat.ltb_spec (length bytes) 1000); [lia | reflexivity].
Qed.

(** When the transcription returns, the file is gone. *)
Lemma add_audio_context_releases text :
  transcribed call = Some text ->
  temp_wav ∉ (add_audio_context s files call).2.
Proof using Hbytes Hsize Hwritten.
  intros Ht. rewrite (add_audio_context_transcribed text Ht). simpl.
  intros Hin. apply elem_of_difference in Hin as [_ Hout].
  apply Hout, elem_of_singleton. reflexivity.
Qed.

(** When the transcription raises, the file stays and the session is
    as before. *)
Lemma add_audio_context_leaves_file :
  transcribed call = None ->
  add_audio_context s files call = (s, {[temp_wav]} ∪ files).
Proof using Hbytes Hsize Hwritten.
  intros Ht. unfold add_audio_context.
  rewrite Hbytes, Hwritten, Ht.
  destruct (Nat.ltb_spec (length bytes) 1000); [lia | reflexivity].
Qed.
End AudioFile.

(** A payload under 1000 bytes touches neither the session nor the disk. *)
Lemma add_audio_context_short s files call bytes :
  audio_bytes call = Some bytes ->
  length bytes < 1000 ->
  add_audio_context s files call = (s, files).
Proof.
  intros Hb Hn. unfold add_audio_context. rewrite Hb.
  destruct (Nat.ltb_spec (length bytes) 1000); [reflexivity | lia].
Qed.

(** The session after [add_audio_context] does not depend on the files. *)
Lemma add_audio_context_session s files files' call :
  (add_audio_context s files call).1 = (add_audio_context s files' call).1.
Proof.
  unfold add_audio_context.
  destruct (audio_bytes call) as [bytes|]; [|reflexivity].
  destruct (length bytes <? 1000); [reflexivity|].
  destruct (write_outcome call); try reflexivity.
  destruct (transcribed call); reflexivity.
Qed.

(** C1, on the code: a payload of 1000 bytes whose transcription raises
    leaves the temporary file on disk when [add_audio_context] returns.
    The file is removed on the path where the transcription returns
    ([add_audio_context_releases]) and on no other. *)
Theorem temp_file_left_when_transcription_raises :
  (lit "s1", 100%Z) ∈
    (add_audio_context (init (lit "s1")) ∅ failing_audio_call).2.
Proof.
  rewrite (add_audio_context_leaves_file _ _ _ (replicate 1000 Byte.x00));
    [| reflexivity | | reflexivity | reflexivity].
  - simpl. apply elem_of_union_l, elem_of_singleton. reflexivity.
  - rewrite length_replicate. lia.
Qed.

(** ** Answers to an outstanding question *)

Section Answer.
Variables (s : InterviewSession) (text : str) (now_speech now_answer : Q).
Hypothesis Htext : strip text <> [].
Hypothesis Hwaiting : waiting_for_answer s = true.

Let s' := ingest_transcription text now_speech now_answer s.

Let entry : QAPair :=
  {| qa_question := current_question s;
     qa_answer := strip text;
     qa_timestamp := now_answer |}.

Lemma ingest_transcription_answer :
  qa_pairs s' = qa_pairs s ++ [entry] /\
  waiting_for_answer s' = false /\
  current_question s' = current_question s.
Proof using Htext Hwaiting.
  subst s' entry. unfold ingest_transcription.
  destruct (strip text) as [|c rest] eqn:Hs; [congruence|].
  set (s4 := set_silence_start _ _).
  destruct (extract_facts_keeps text s4)
    as ((_ & _ & _ & _ & Hq & _) & Hw & Hp).
  assert (H4 : current_question s4 = current_question s /\
               waiting_for_answer s4 = waiting_for_answer s /\
               qa_pairs s4 = qa_pairs s) by (subst s4; simpl; auto).
  destruct H4 as (Hq4 & Hw4 & Hp4).
  rewrite Hw, Hw4, Hwaiting.
  case_match; simpl; rewrite Hp, Hq, Hp4, Hq4; auto.
Qed.
End Answer.

(** C3, as stated, fails: after the answer "Because." to the outstanding
    question "Why?", the entry is appended and [waiting_for_answer] is
    cleared, but [current_question] is still "Why?". *)
Lemma answer_keeps_current_question :
  let s' := (add_audio_context waiting_session ∅ answer_call).1 in
  waiting_for_answer waiting_session = true /\
  length (qa_pairs s') = 1 /\
  waiting_for_answer s' = false /\
  current_question s' = Some (lit "Why?") /\
  current_question s' <> None.
Proof.
  vm_compute. repeat split; discriminate.
Qed.

(** C3, amended: when a non-empty transcription is ingested while
    [waiting_for_answer] is true, the entry made of the current question,
    the stripped text and the time stamp is appended to [qa_pairs] and
    [waiting_for_answer] is cleared in the same call; [current_question]
    keeps its value. *)
Theorem answer_appends_and_clears_waiting
    (s : InterviewSession) (files : gset TempFile) (call : AudioCall)
    (bytes : list Byte.byte) (text : str) :
  audio_bytes call = Some bytes ->
  1000 <= length bytes ->
  write_outcome call = written ->
  transcribed call = Some text ->
  strip text <> [] ->
  waiting_for_answer s = true ->
  let s' := (add_audio_context s files call).1 in
  qa_pairs s' =
    qa_pairs s ++ [{| qa_question := current_question s;
                      qa_answer := strip text;
                      qa_timestamp := now_answer call |}] /\
  waiting_for_answer s' = false /\
  current_question s' = current_question s.
Proof.
  intros Hb Hn Hw Ht Hs Hwait.
  rewrite (add_audio_context_transcribed s files call bytes Hb Hn Hw text Ht).
  simpl. apply ingest_transcription_answer; assumption.
Qed.

Lemma answer_appends_and_clears_waiting_witness :
  let s' := (add_audio_context waiting_session ∅ answer_call).1 in
  qa_pairs s' = [{| qa_question := Some (lit "Why?");
                    qa_answer := lit "Because.";
                    qa_timestamp := 100 + 2 |}] /\
  waiting_for_answer s' = false /\
  current_question s' = Some (lit "Why?").
Proof.
  apply (answer_appends_and_clears_waiting waiting_session ∅ answer_call
           (replicate 1000 Byte.x00) (lit " Because. ")).
  - reflexivity.
  - vm_compute. lia.
  - reflexivity.
  - reflexivity.
  - vm_compute. discriminate.
  - reflexivity.
Defined.

(** C10: when an answer resolves an outstanding question, the entry
    appended to [qa_pairs] has for answer the stripped text of the
    transcription that triggered it, whatever the transcript buffer holds:
    the text of that transcription without the white space at its two
    ends, which neither starts nor ends with white space; and it has for
    question the value [current_question] had at that moment. *)
Theorem answer_is_latest_utterance
    (s : InterviewSession) (files : gset TempFile) (call : AudioCall)
    (bytes : list Byte.byte) (text : str) :
  audio_bytes call = Some bytes ->
  1000 <= length bytes ->
  write_outcome call = written ->
  transcribed call = Some text ->
  strip text <> [] ->
  waiting_for_answer s = true ->
  exists entry,
    qa_pairs (add_audio_context s files call).1 = qa_pairs s ++ [entry] /\
    qa_answer entry = strip text /\
    qa_question entry = current_question s /\
    (exists lead trail,
       text = lead ++ qa_answer entry ++ trail /\
       forallb is_space lead = true /\
       forallb is_space trail = true) /\
    (forall c, head (qa_answer entry) = Some c -> is_space c = false) /\
    (forall c, last (qa_answer entry) = Some c -> is_space c = false).
Proof.
  intros Hb Hn Hw Ht Hs Hwait.
  rewrite (add_audio_context_transcribed s files call bytes Hb Hn Hw text Ht).
  simpl.
  destruct (ingest_transcription_answer s text (now_speech call)
              (now_answer call) Hs Hwait) as (Hqa & _ & _).
  destruct (strip_with_spec is_space text)
    as (lead & trail & Htext & Hlead & Htrail & Hhead & Hlast).
  eexists. split; [exact Hqa|]. simpl.
  split; [reflexivity|]. split; [reflexivity|].
  split; [exists lead, trail; auto|]. split; assumption.
Qed.

Lemma answer_is_latest_utterance_witness :
  exists entry,
    qa_pairs (add_audio_context waiting_session ∅ answer_call).1 =
      qa_pairs waiting_session ++ [entry] /\
    qa_answer entry = lit "Because." /\
    qa_question entry = Some (lit "Why?").
Proof.
  destruct (answer_is_latest_utterance waiting_session ∅ answer_call
              (replicate 1000 Byte.x00) (lit " Because. "))
    as (entry & Hqa & Hanswer & Hquestion & _).
  - reflexivity.
  - vm_compute. lia.
  - reflexivity.
  - reflexivity.
  - vm_compute. discriminate.
  - reflexivity.
  - exists entry. split; [exact Hqa|]. split.
    + rewrite Hanswer. vm_compute. reflexivity.
    + rewrite Hquestion. reflexivity.
Defined.

(** In that run the transcript buffer holds more than the answer. *)
Example answer_is_not_the_transcript :
  let s' := (add_audio_context waiting_session ∅ answer_call).1 in
  transcript s' = lit " I built a compiler Because." /\
  map qa_answer (qa_pairs s') = [lit "Because."].
Proof. vm_compute. split; reflexivity. Qed.

(** ** Question policy *)

(** C8: with five questions asked, [should_ask_question] answers false
    whatever the stage, the timers, [waiting_for_answer] and the buffers
    are, and [generate_question] produces nothing. *)
Theorem no_question_after_five (s : InterviewSession) (now : Q)
    (call : QuestionCall) :
  length (questions_asked s) = 5 ->
  (should_ask_question s now).1 = false /\
  (generate_question s call).1 = None.
Proof.
  intros Hlen.
  assert (Hno : forall t, (should_ask_question s t).1 = false).
  { intros t. unfold should_ask_question.
    repeat (case_match; try reflexivity).
    all: match goal with
         | H : (5 <=? _) = false |- _ => apply Nat.leb_gt in H; lia
         end. }
  split; [apply Hno|].
  unfold generate_question.
  specialize (Hno (now_check call)).
  destruct (should_ask_question s (now_check call)) as [ask s1].
  simpl in Hno. subst ask. reflexivity.
Qed.

Lemma no_question_after_five_witness :
  (should_ask_question full_session 1000).1 = false /\
  (generate_question full_session
     {| now_check := 1000; generated := Some (lit "Why?"); now_asked := 1001 |}).1
    = None.
Proof.
  apply (no_question_after_five full_session). reflexivity.
Defined.

(** With one question less the same session is eligible. *)
Example question_due_with_four :
  (should_ask_question
     (set_questions_asked [lit "q1"; lit "q2"; lit "q3"; lit "q4"] full_session)
     1000).1 = true.
Proof. vm_compute. reflexivity. Qed.

(** ** The dialogue state machine *)

(** What a call of the dialogue state machine can do. *)
Lemma generate_conversational_response_cases s now :
  generate_conversational_response s now = (None, s) \/
  exists text s',
    generate_conversational_response s now = (Some text, s') /\
    (last_response_time s + 15 <= now)%Q /\
    last_response_time s' = now /\
    (interview_stage s' = interview_stage s \/
     stage_rank (interview_stage s') = S (stage_rank (interview_stage s))).
Proof.
  unfold generate_conversational_response.
  destruct (Qltb (now - last_response_time s) 15) eqn:E; [left; reflexivity|].
  apply Qltb_ge in E.
  assert (Hle : (last_response_time s + 15 <= now)%Q) by lra.
  destruct (interview_stage s) eqn:Hst.
  - right. do 2 eexists. split; [reflexivity|]. simpl. auto.
  - destruct (student_name s).
    + destruct (Qltb 5 _); [|left; reflexivity].
      right. do 2 eexists. split; [reflexivity|]. simpl. auto.
    + right. do 2 eexists. split; [reflexivity|]. simpl. auto.
  - destruct (50 <? length (transcript s)).
    + right. do 2 eexists. split; [reflexivity|]. simpl. auto.
    + destruct (Qltb 5 _); [|left; reflexivity].
      right. do 2 eexists. split; [reflexivity|]. simpl. auto.
  - left. reflexivity.
Qed.

Lemma apply_op_stage (s : InterviewSession) (op : Op) :
  interview_stage (apply_op s op) = interview_stage s \/
  stage_rank (interview_stage (apply_op s op)) = S (stage_rank (interview_stage s)).
Proof.
  destruct op as [| |now| | | | | | |];
    try (left; apply apply_op_keeps_stage; discriminate).
  simpl.
  destruct (generate_conversational_response_cases s now)
    as [-> | (text & s' & -> & _ & _ & H)]; auto.
Qed.

Lemma run_stage_rank (s : InterviewSession) (ops : list Op) :
  stage_rank (interview_stage s) <= stage_rank (interview_stage (run s ops)).
Proof.
  revert s. induction ops as [|op ops IH]; intros s; [simpl; lia|].
  change (run s (op :: ops)) with (run (apply_op s op) ops).
  specialize (IH (apply_op s op)).
  destruct (apply_op_stage s op) as [H|H]; rewrite H in IH; lia.
Qed.

(** C6: along every sequence of operations the stage only moves forward in
    the order greeting, awaiting_name, project_intro, presentation: one
    operation keeps the stage or moves it to the next one, so that its
    rank never decreases along a run. *)
Theorem stage_never_regresses (s : InterviewSession) (ops : list Op) :
  stage_rank (interview_stage s) <= stage_rank (interview_stage (run s ops)) /\
  forall op,
    interview_stage (apply_op s op) = interview_stage s \/
    stage_rank (interview_stage (apply_op s op)) =
      S (stage_rank (interview_stage s)).
Proof.
  split; [apply run_stage_rank | apply apply_op_stage].
Qed.

Example interview_stages :
  map (fun n => interview_stage (run (init (lit "s1")) (take n interview)))
      [0; 2; 4; 6; 8] =
  [greeting; awaiting_name; project_intro; presentation; presentation].
Proof. vm_compute. reflexivity. Qed.

(** *** The cooldown *)

Lemma generate_conversational_response_limited s now :
  (now - last_response_time s < 15)%Q ->
  generate_conversational_response s now = (None, s).
Proof.
  intros H. unfold generate_conversational_response.
  apply Qltb_lt in H. rewrite H. reflexivity.
Qed.

Lemma response_times_spaced s ops :
  spaced 15 (response_times s ops) /\
  forall t, head (response_times s ops) = Some t ->
            (last_response_time s + 15 <= t)%Q.
Proof.
  revert s. induction ops as [|op ops IH]; intros s;
    [simpl; split; [exact I|discriminate]|].
  destruct (IH (apply_op s op)) as [IHs IHh].
  assert (Hother : (forall now, op <> op_advance now) ->
    spaced 15 (response_times s (op :: ops)) /\
    forall t, head (response_times s (op :: ops)) = Some t ->
              (last_response_time s + 15 <= t)%Q).
  { intros Hop.
    destruct (apply_op_keeps_stage s op Hop) as [_ Hl].
    rewrite <- Hl.
    destruct op; try (split; [exact IHs | exact IHh]).
    exfalso. eapply Hop. reflexivity. }
  destruct op as [| |now| | | | | | |]; try (apply Hother; discriminate).
  clear Hother. simpl in *.
  destruct (generate_conversational_response_cases s now)
    as [E | (text & s' & E & Hgap & Hstamp & _)]; rewrite E in *; simpl in *.
  - split; [exact IHs | exact IHh].
  - split.
    + destruct (response_times s' ops) as [|t2 ts] eqn:Ets; [exact I|].
      split; [|exact IHs].
      specialize (IHh t2 eq_refl). rewrite Hstamp in IHh. exact IHh.
    + intros t [= <-]. exact Hgap.
Qed.

Lemma apply_op_unstamped s op :
  unstamped_greeting s -> unstamped_greeting (apply_op s op).
Proof.
  unfold unstamped_greeting. intros Hs.
  assert (Hother : (forall now, op <> op_advance now) ->
    interview_stage (apply_op s op) = greeting ->
    last_response_time (apply_op s op) = 0%Q).
  { intros Hop. destruct (apply_op_keeps_stage s op Hop) as [-> ->]. exact Hs. }
  destruct op as [| |now| | | | | | |]; try (apply Hother; discriminate).
  clear Hother. simpl. unfold generate_conversational_response.
  destruct (Qltb (now - last_response_time s) 15); [exact Hs|].
  destruct (interview_stage s) eqn:Hst; simpl.
  - discriminate.
  - destruct (student_name s); simpl; [|discriminate].
    destruct (Qltb 5 _); simpl; rewrite Hst; discriminate.
  - destruct (50 <? length (transcript s)); simpl; [discriminate|].
    destruct (Qltb 5 _); simpl; rewrite Hst; discriminate.
  - rewrite Hst. discriminate.
Qed.

Lemma run_unstamped s ops :
  unstamped_greeting s -> unstamped_greeting (run s ops).
Proof.
  revert s. induction ops as [|op ops IH]; intros s Hs; [exact Hs|].
  change (run s (op :: ops)) with (run (apply_op s op) ops).
  apply IH, apply_op_unstamped, Hs.
Qed.

Lemma greeting_fires s now :
  interview_stage s = greeting ->
  last_response_time s = 0%Q ->
  (15 <= now)%Q ->
  generate_conversational_response s now =
    (Some greeting_text,
     set_last_response_time now (set_interview_stage awaiting_name s)).
Proof.
  intros Hst Hl Hnow. unfold generate_conversational_response.
  rewrite Hl, Hst.
  destruct (Qltb (now - 0) 15) eqn:E; [|reflexivity].
  apply Qltb_lt in E. lra.
Qed.

(** What lets the first call from the greeting stage through is the
    initial value 0 of [last_response_time] and the size of the readings
    of the Unix clock, no test on the stage: at a reading of 10 seconds,
    which [time.time()] does not give, the first call on a fresh session
    returns nothing. *)
Example first_call_under_15_is_silent :
  generate_conversational_response (init (lit "s1")) 10
    = (None, init (lit "s1")) /\
  interview_stage (init (lit "s1")) = greeting /\
  last_response_time (init (lit "s1")) = 0%Q.
Proof. vm_compute. repeat split. Qed.

(** C5: [generate_conversational_response] returns nothing and leaves
    the session as it is whenever fewer than 15 seconds have elapsed since
    [last_response_time]; the first invocation from the greeting stage,
    where [last_response_time] still has its initial value 0, fires at
    every clock reading of at least 15 seconds, as every reading of the
    Unix clock is; and along every sequence of operations two consecutive
    responses are at least 15 seconds apart. *)
Theorem advance_rate_limited :
  (forall s now,
     (now - last_response_time s < 15)%Q ->
     generate_conversational_response s now = (None, s)) /\
  (forall sid ops now,
     interview_stage (run (init sid) ops) = greeting ->
     (15 <= now)%Q ->
     exists s',
       generate_conversational_response (run (init sid) ops) now =
         (Some greeting_text, s') /\
       interview_stage s' = awaiting_name) /\
  (forall s ops, spaced 15 (response_times s ops)).
Proof.
  split; [exact generate_conversational_response_limited|]. split.
  - intros sid ops now Hst Hnow.
    assert (Hl : last_response_time (run (init sid) ops) = 0%Q).
    { apply (run_unstamped (init sid) ops); [|exact Hst]. intros _. reflexivity. }
    eexists. split; [apply greeting_fires; assumption|]. reflexivity.
  - intros s ops. apply response_times_spaced.
Qed.

Lemma advance_rate_limited_witness :
  (let s := run (init (lit "s1")) [op_attach; op_advance 1000] in
   generate_conversational_response s 1010 = (None, s)) /\
  (exists s',
     generate_conversational_response (run (init (lit "s1")) [op_attach]) 1000 =
       (Some greeting_text, s') /\
     interview_stage s' = awaiting_name) /\
  spaced 15 (response_times (init (lit "s1")) interview).
Proof.
  destruct advance_rate_limited as (Hlimit & Hfirst & Hspaced).
  split; [|split].
  - apply Hlimit. vm_compute. reflexivity.
  - apply (Hfirst (lit "s1") [op_attach] 1000%Q).
    + reflexivity.
    + vm_compute. discriminate.
  - apply Hspaced.
Defined.

Example interview_response_times :
  response_times (init (lit "s1")) interview = [1000; 1020; 1040]%Q.
Proof. vm_compute. reflexivity. Qed.

(** ** The context buffer *)

Lemma add_frame_context_rejected s text :
  accepts s text = false -> add_frame_context s (Some text) = s.
Proof.
  unfold accepts, add_frame_context.
  destruct (strip text); [reflexivity|].
  destruct (is_duplicate text (recent_ocr_texts s)); [reflexivity|discriminate].
Qed.

Lemma add_frame_context_accepted s text :
  accepts s text = true ->
  let appended := context s ++ screen_tag ++ strip text in
  context (add_frame_context s (Some text)) =
    (if 5000 <? length appended then last_chars 3000 appended else appended) /\
  recent_ocr_texts (add_frame_context s (Some text)) =
    deque_append text (recent_ocr_texts s).
Proof.
  unfold accepts, add_frame_context.
  destruct (strip text); [discriminate|].
  destruct (is_duplicate text (recent_ocr_texts s)); [discriminate|].
  intros _. simpl. split; reflexivity.
Qed.

Lemma add_frame_context_bounded s extracted :
  length (context s) <= 5000 ->
  length (context (add_frame_context s extracted)) <= 5000.
Proof.
  intros Hs. destruct extracted as [text|]; [|exact Hs].
  destruct (accepts s text) eqn:Ha.
  - destruct (add_frame_context_accepted s text Ha) as [-> _].
    destruct (Nat.ltb_spec 5000 (length (context s ++ screen_tag ++ strip text))).
    + rewrite last_chars_length; lia.
    + assumption.
  - rewrite add_frame_context_rejected; assumption.
Qed.

Lemma apply_op_context_bounded s op :
  length (context s) <= 5000 -> length (context (apply_op s op)) <= 5000.
Proof.
  intros Hs.
  destruct op as [extracted| | | | | | | | |];
    [apply add_frame_context_bounded, Hs | ..];
    match goal with
    | |- context [apply_op s ?op] =>
        destruct (apply_op_keeps_context s op) as [-> _];
        [discriminate | exact Hs]
    end.
Qed.

Lemma run_context_bounded s ops :
  length (context s) <= 5000 -> length (context (run s ops)) <= 5000.
Proof.
  revert s. induction ops as [|op ops IH]; intros s Hs; [exact Hs|].
  change (run s (op :: ops)) with (run (apply_op s op) ops).
  apply IH, apply_op_context_bounded, Hs.
Qed.

(** C7: the context never exceeds 5000 characters, after any sequence of
    operations from the initial session and across every frame ingestion;
    and when a frame ingestion appends a text that brings the buffer over
    5000 characters, exactly the trailing 3000 characters of the appended
    buffer remain: the new context has 3000 characters and the appended
    buffer is some dropped characters followed by it. *)
Theorem context_capped (sid : str) (ops : list Op)
    (s : InterviewSession) (extracted : option str) (text : str) :
  length (context (run (init sid) ops)) <= 5000 /\
  (length (context s) <= 5000 ->
   length (context (add_frame_context s extracted)) <= 5000) /\
  (accepts s text = true ->
   5000 < length (context s ++ screen_tag ++ strip text) ->
   context (add_frame_context s (Some text)) =
     last_chars 3000 (context s ++ screen_tag ++ strip text) /\
   length (context (add_frame_context s (Some text))) = 3000 /\
   exists dropped,
     context s ++ screen_tag ++ strip text =
       dropped ++ context (add_frame_context s (Some text))).
Proof.
  split; [|split].
  - apply run_context_bounded. simpl. lia.
  - apply add_frame_context_bounded.
  - intros Ha Hlen.
    destruct (add_frame_context_accepted s text Ha) as [-> _].
    destruct (Nat.ltb_spec 5000 (length (context s ++ screen_tag ++ strip text)));
      [|lia].
    split; [reflexivity|]. split; [apply last_chars_length; lia|].
    apply last_chars_suffix.
Qed.

Lemma context_capped_witness :
  length (context (add_frame_context crowded_session (Some (lit "hello world"))))
    <= 5000 /\
  length (context (add_frame_context crowded_session (Some (lit "hello world"))))
    = 3000 /\
  context (add_frame_context crowded_session (Some (lit "hello world")))
    = replicate 2978 "a"%char ++ screen_tag ++ lit "hello world".
Proof.
  destruct (context_capped (lit "s1") [] crowded_session
              (Some (lit "hello world")) (lit "hello world"))
    as (_ & Hbound & Hcut).
  destruct Hcut as (Hkept & Hlen & _).
  - vm_compute. reflexivity.
  - apply Nat.ltb_lt. vm_compute. reflexivity.
  - split; [|split].
    + apply Hbound. apply Nat.leb_le. vm_compute. reflexivity.
    + exact Hlen.
    + rewrite Hkept. vm_compute. reflexivity.
Defined.

(** ** The window of recent OCR texts *)

Lemma run_recent_ocr_texts s ops :
  length (recent_ocr_texts s) <= 5 ->
  recent_ocr_texts (run s ops) = last_n 5 (recent_ocr_texts s ++ accepted s ops).
Proof.
  revert s. induction ops as [|op ops IH]; intros s Hs.
  - simpl. rewrite app_nil_r, last_n_short; [reflexivity|exact Hs].
  - change (run s (op :: ops)) with (run (apply_op s op) ops).
    assert (Hother : (forall extracted, op <> op_frame extracted) ->
      recent_ocr_texts (run (apply_op s op) ops) =
        last_n 5 (recent_ocr_texts s ++ accepted (apply_op s op) ops)).
    { intros Hop. destruct (apply_op_keeps_context s op Hop) as [_ Hr].
      rewrite IH; rewrite Hr; [reflexivity|exact Hs]. }
    destruct op as [[text|]| | | | | | | | |];
      try (apply Hother; discriminate); clear Hother.
    + change (accepted s (op_frame (Some text) :: ops))
        with ((if accepts s text then [text] else []) ++
              accepted (add_frame_context s (Some text)) ops).
      change (apply_op s (op_frame (Some text)))
        with (add_frame_context s (Some text)).
      destruct (accepts s text) eqn:Ha.
      * destruct (add_frame_context_accepted s text Ha) as [_ Hr].
        assert (Hw : recent_ocr_texts (add_frame_context s (Some text)) =
                     last_n 5 (recent_ocr_texts s ++ [text])) by exact Hr.
        rewrite IH by (rewrite Hw; apply last_n_length).
        rewrite Hw, last_n_app_last_n, <- app_assoc. reflexivity.
      * rewrite (add_frame_context_rejected s text Ha).
        rewrite IH by exact Hs. reflexivity.
    + change (accepted s (op_frame None :: ops))
        with ([] ++ accepted s ops).
      change (apply_op s (op_frame None)) with s.
      rewrite IH by exact Hs. reflexivity.
Qed.

Lemma is_duplicate_of text old recent :
  old ∈ recent -> (8 # 10 < _similarity text old)%Q ->
  is_duplicate text recent = true.
Proof.
  intros Hin Hsim. unfold is_duplicate. apply existsb_exists.
  exists old. split; [apply list_elem_of_In, Hin | apply Qltb_lt, Hsim].
Qed.

(** C4, as stated, fails: "alpha" is appended to the context, five other
    texts follow and push it out of the window, and a second "alpha", of
    similarity 1 with the first, is appended again. *)
Lemma duplicate_outside_window_appended :
  let s := run (init (lit "s1")) six_frames in
  lit "alpha" ∈ accepted (init (lit "s1")) six_frames /\
  (8 # 10 < _similarity (lit "alpha") (lit "alpha"))%Q /\
  context (add_frame_context s (Some (lit "alpha"))) =
    context s ++ screen_tag ++ lit "alpha".
Proof.
  split; [|split].
  - apply list_elem_of_In. vm_compute. left. reflexivity.
  - vm_compute. reflexivity.
  - vm_compute. reflexivity.
Qed.

(** C4, amended: after any sequence of operations from the initial
    session, an OCR extraction whose Jaccard similarity with one of the
    five most recently appended extractions exceeds 0.8 is not appended:
    the frame ingestion leaves the session, and so the context, as it
    is. *)
Theorem near_duplicate_in_window_rejected
    (sid : str) (ops : list Op) (old new : str) :
  old ∈ last_n 5 (accepted (init sid) ops) ->
  (8 # 10 < _similarity new old)%Q ->
  add_frame_context (run (init sid) ops) (Some new) = run (init sid) ops.
Proof.
  intros Hin Hsim. apply add_frame_context_rejected.
  unfold accepts. destruct (strip new); [reflexivity|].
  rewrite (is_duplicate_of new old); [reflexivity| |exact Hsim].
  rewrite run_recent_ocr_texts; [exact Hin | simpl; lia].
Qed.

Lemma near_duplicate_in_window_rejected_witness :
  let s := run (init (lit "s1")) six_frames in
  add_frame_context s (Some (lit "Zeta ZETA zeta")) = s.
Proof.
  apply (near_duplicate_in_window_rejected (lit "s1") six_frames
           (lit "zeta") (lit "Zeta ZETA zeta")).
  - apply list_elem_of_In. vm_compute. do 4 right. left. reflexivity.
  - vm_compute. reflexivity.
Defined.

(** The same text submitted twice in a row gives one entry. *)
Example same_text_twice :
  context (run (init (lit "s1"))
             [op_frame (Some (lit "slide one")); op_frame (Some (lit "slide one"))])
    = screen_tag ++ lit "slide one".
Proof. vm_compute. reflexivity. Qed.

(** ** The outstanding question *)

Lemma generate_question_outstanding s call :
  question_outstanding s -> question_outstanding (generate_question s call).2.
Proof.
  unfold question_outstanding, generate_question. intros Hs.
  pose proof (should_ask_question_frame s (now_check call) _ eq_refl) as H.
  destruct (should_ask_question s (now_check call)) as [ask s1].
  simpl in H. destruct H as (_ & _ & _ & _ & Hw & Hq & _).
  destruct ask; simpl; [|rewrite Hw, Hq; exact Hs].
  destruct (generated call) as [content|]; simpl; [|rewrite Hw, Hq; exact Hs].
  destruct (strip content) as [|c rest] eqn:E; simpl; [rewrite Hw, Hq; exact Hs|].
  intros _. eexists. split; [reflexivity|discriminate].
Qed.

Lemma apply_op_outstanding s op :
  question_outstanding s -> question_outstanding (apply_op s op).
Proof.
  intros Hs. destruct op; simpl.
  - destruct (add_frame_context_frame s extracted _ eq_refl) as (_ & _ & Hw & Hq).
    unfold question_outstanding. rewrite Hw, Hq. exact Hs.
  - destruct (add_audio_context_frame s ∅ call) as ((_ & _ & _ & _ & Hq & _) & Hw).
    unfold question_outstanding. rewrite Hq. intros H. apply Hs, Hw, H.
  - destruct (generate_conversational_response_frame s now _ eq_refl)
      as (_ & _ & Hw & Hq).
    unfold question_outstanding. rewrite Hw, Hq. exact Hs.
  - destruct (should_ask_question_frame s now _ eq_refl)
      as (_ & _ & _ & _ & Hw & Hq & _).
    unfold question_outstanding. rewrite Hw, Hq. exact Hs.
  - apply generate_question_outstanding, Hs.
  - destruct (update_evaluation_frame s call _ eq_refl)
      as (_ & _ & _ & _ & Hw & Hq).
    unfold question_outstanding. rewrite Hw, Hq. exact Hs.
  - exact Hs.
  - exact Hs.
  - exact Hs.
  - exact Hs.
Qed.

Lemma run_outstanding s ops :
  question_outstanding s -> question_outstanding (run s ops).
Proof.
  revert s. induction ops as [|op ops IH]; intros s Hs; [exact Hs|].
  change (run s (op :: ops)) with (run (apply_op s op) ops).
  apply IH, apply_op_outstanding, Hs.
Qed.

(** C9: [waiting_for_answer] true implies that [current_question] is set
    to a non-empty question: this holds of the initial session, every
    operation on the session (frame ingestion, audio ingestion, dialogue
    advance, question generation, evaluation update, and the assignments
    of the worker and the socket handler) preserves it, and so it holds
    after every sequence of operations. *)
Theorem question_outstanding_invariant :
  (forall sid, question_outstanding (init sid)) /\
  (forall s op, question_outstanding s -> question_outstanding (apply_op s op)) /\
  (forall sid ops, question_outstanding (run (init sid) ops)).
Proof.
  assert (Hinit : forall sid, question_outstanding (init sid)).
  { intros sid H. discriminate H. }
  split; [exact Hinit|]. split; [exact apply_op_outstanding|].
  intros sid ops. apply run_outstanding, Hinit.
Qed.

Lemma question_outstanding_invariant_witness :
  waiting_for_answer (run (init (lit "s1")) interview) = true /\
  exists question,
    current_question (run (init (lit "s1")) interview) = Some question /\
    question <> [].
Proof.
  destruct question_outstanding_invariant as (_ & _ & Hrun).
  assert (Hw : waiting_for_answer (run (init (lit "s1")) interview) = true)
    by (vm_compute; reflexivity).
  split; [exact Hw|].
  apply (Hrun (lit "s1") interview). exact Hw.
Defined.

(** The facts extracted along the interview. *)
Example interview_facts :
  let s := run (init (lit "s1")) interview in
  student_name s = lit "Alex" /\
  project_name s = lit "called Tiny Compiler" /\
  current_question s = Some (lit "Why bytecode?") /\
  questions_asked s = [lit "Why bytecode?"].
Proof. vm_compute. repeat split. Qed.

(** ** The worker and the evaluation trigger *)

Lemma quiet_ret {A} (x : A) : quiet (mret x).
Proof. intros w w' r [= <- _]. reflexivity. Qed.

Lemma quiet_raise {A} : quiet (@raise A).
Proof. intros w w' r [= <- _]. reflexivity. Qed.

Lemma quiet_bind {A B} (m : M A) (f : A -> M B) :
  quiet m -> (forall x, quiet (f x)) -> quiet (m ≫= f).
Proof.
  intros Hm Hf w w' r. unfold mbind, M_bind.
  destruct (m w) as [w1 [x|]] eqn:E.
  - intros H. rewrite (Hf x _ _ _ H). apply (Hm _ _ _ E).
  - intros [= <- _]. apply (Hm _ _ _ E).
Qed.

Lemma quiet_get_session : quiet get_session.
Proof. intros w w' r [= <- _]. reflexivity. Qed.

Lemma quiet_put_session s : quiet (put_session s).
Proof. intros w w' r [= <- _]. reflexivity. Qed.

Lemma quiet_set_greeting_sent : quiet set_greeting_sent.
Proof. intros w w' r [= <- _]. reflexivity. Qed.

Lemma evaluations_emit a w :
  evaluations (emit a w).1 =
    evaluations w + (if decide (a = act_evaluate) then 1 else 0).
Proof.
  unfold evaluations, emit. simpl. rewrite filter_app, length_app. simpl.
  rewrite filter_cons, filter_nil.
  destruct (decide (a = act_evaluate)); reflexivity.
Qed.

Lemma quiet_emit a : a <> act_evaluate -> quiet (emit a).
Proof.
  intros Ha w w' r H.
  pose proof (evaluations_emit a w) as He. rewrite H in He. simpl in He.
  rewrite He. destruct (decide (a = act_evaluate)); [contradiction|lia].
Qed.

Lemma quiet_send ok m : quiet (send ok m).
Proof.
  unfold send. destruct ok; [apply quiet_emit; discriminate|apply quiet_raise].
Qed.

Lemma quiet_report printed m : quiet (report printed m).
Proof.
  unfold report. destruct printed; [apply quiet_emit; discriminate|apply quiet_ret].
Qed.

Ltac quiet_steps :=
  repeat first
    [ apply quiet_ret | apply quiet_raise | apply quiet_get_session
    | apply quiet_put_session | apply quiet_set_greeting_sent
    | apply quiet_send | apply quiet_report
    | (apply quiet_emit; discriminate)
    | (apply quiet_bind; [|intros ?])
    | match goal with
      | |- quiet (let '(_, _) := ?p in _) => destruct p
      | |- quiet (match ?x with _ => _ end) => destruct x
      end ].

Lemma quiet_greeting_step c : quiet (greeting_step c).
Proof.
  intros w w' r. unfold greeting_step.
  destruct (negb (greeting_sent w) && websocket (session w)).
  - revert w w' r. quiet_steps.
  - intros [= <- _]. reflexivity.
Qed.

Lemma quiet_enqueue evs : quiet (enqueue evs).
Proof. unfold enqueue. quiet_steps. Qed.

Lemma quiet_handle_event c data : quiet (handle_event c data).
Proof.
  unfold handle_event. quiet_steps.
  intros w w' r. destruct (add_audio_context _ _ _). intros [= <- _]. reflexivity.
Qed.

Lemma quiet_decay_step c : quiet (decay_step c).
Proof. unfold decay_step. quiet_steps. Qed.

(** What the evaluation step adds to the trace. *)
Lemma evaluation_step_evaluations c w :
  evaluations (evaluation_step c w).1 =
    evaluations w +
      (if evaluation_due (session w) (now_evaluation c) then 1 else 0).
Proof.
  unfold evaluation_step, mbind, M_bind, get_session. simpl.
  destruct (evaluation_due (session w) (now_evaluation c)); simpl; [|lia].
  unfold report.
  destruct (update_evaluation (session w) (evaluation_call c)) as [s' [m|]];
    destruct (update_evaluation_prints (session w) (evaluation_call c));
    simpl; unfold evaluations; simpl;
    rewrite ?filter_app, ?length_app; simpl;
    rewrite ?filter_cons, ?filter_nil; simpl; lia.
Qed.

(** The evaluation step never raises: [update_evaluation] swallows every
    exception. *)
Lemma evaluation_step_returns c w : (evaluation_step c w).2 = Some tt.
Proof.
  unfold evaluation_step, mbind, M_bind, get_session. simpl.
  destruct (evaluation_due (session w) (now_evaluation c)); simpl; [|reflexivity].
  unfold report.
  destruct (update_evaluation (session w) (evaluation_call c)) as [s' [m|]];
    destruct (update_evaluation_prints (session w) (evaluation_call c));
    reflexivity.
Qed.

(** The end of an iteration adds no evaluation. *)
Lemma tick_tail_evaluations c (w1 : Worker) (r : option unit) :
  evaluations
    (match (match r with
            | Some _ => (decay_step c;; emit (act_sleep (1 # 10))) w1
            | None => (w1, None)
            end) with
     | (w', Some _) => w'
     | (w', None) => ((emit act_print;; emit (act_sleep 1)) w').1
     end) = evaluations w1.
Proof.
  assert (Hh : forall w', evaluations ((emit act_print;; emit (act_sleep 1)) w').1
                          = evaluations w').
  { intros w'. destruct ((emit act_print;; emit (act_sleep 1)) w') as [w'' r'] eqn:E.
    revert E. apply quiet_bind; [|intros ?]; apply quiet_emit; discriminate. }
  destruct r as [[]|].
  - destruct ((decay_step c;; emit (act_sleep (1 # 10))) w1) as [w' r'] eqn:E.
    assert (He : evaluations w' = evaluations w1).
    { revert E. apply quiet_bind; [apply quiet_decay_step|intros ?].
      apply quiet_emit; discriminate. }
    destruct r'; [exact He | rewrite Hh; exact He].
  - rewrite Hh. reflexivity.
Qed.

Lemma bind_assoc {A B C} (m : M A) (f : A -> M B) (g : B -> M C) w :
  ((m ≫= f) ≫= g) w = (m ≫= (fun x => f x ≫= g)) w.
Proof.
  unfold mbind, M_bind. destruct (m w) as [w1 [x|]]; reflexivity.
Qed.

(** The dialogue state machine does not look at the queue. *)
Lemma generate_conversational_response_queue s q now :
  generate_conversational_response (set_processing_queue q s) now =
    ((generate_conversational_response s now).1,
     set_processing_queue q (generate_conversational_response s now).2).
Proof.
  unfold generate_conversational_response.
  replace (last_response_time (set_processing_queue q s))
    with (last_response_time s) by reflexivity.
  replace (interview_stage (set_processing_queue q s))
    with (interview_stage s) by reflexivity.
  replace (student_name (set_processing_queue q s))
    with (student_name s) by reflexivity.
  replace (transcript (set_processing_queue q s))
    with (transcript s) by reflexivity.
  destruct (Qltb (now - last_response_time s) 15); [reflexivity|].
  destruct (interview_stage s); try reflexivity.
  - destruct (student_name s); [|reflexivity].
    destruct (Qltb 5 _); reflexivity.
  - destruct (50 <? length (transcript s)); [reflexivity|].
    destruct (Qltb 5 _); reflexivity.
Qed.

Lemma generate_conversational_response_keeps_queue s now :
  processing_queue (generate_conversational_response s now).2
    = processing_queue s.
Proof.
  unfold generate_conversational_response.
  destruct (Qltb (now - last_response_time s) 15); [reflexivity|].
  destruct (interview_stage s); try reflexivity.
  - destruct (student_name s); [|reflexivity].
    destruct (Qltb 5 _); reflexivity.
  - destruct (50 <? length (transcript s)); [reflexivity|].
    destruct (Qltb 5 _); reflexivity.
Qed.

(** The arrivals and the greeting step commute: the greeting step does to
    the worker with the arrivals on the queue what it does to the worker
    without them, and raises in the same cases. *)
Lemma enqueue_greeting_step c evs w :
  (enqueue evs;; greeting_step c) w =
    ((enqueue evs (greeting_step c w).1).1, (greeting_step c w).2).
Proof.
  unfold enqueue. unfold mbind at 1 2. unfold M_bind at 1 2.
  unfold get_session at 1. unfold put_session at 1.
  unfold mbind at 1. unfold M_bind at 1.
  unfold greeting_step. cbn [session greeting_sent temp_files trace].
  replace (websocket (set_processing_queue (processing_queue (session w) ++ evs)
                        (session w)))
    with (websocket (session w)) by reflexivity.
  destruct (negb (greeting_sent w) && websocket (session w)); [|reflexivity].
  unfold mbind, M_bind, emit, get_session, put_session.
  cbn [session greeting_sent temp_files trace fst snd].
  rewrite generate_conversational_response_queue.
  pose proof (generate_conversational_response_keeps_queue (session w)
                (now_greeting c)) as Hq.
  destruct (generate_conversational_response (session w) (now_greeting c))
    as [[text|] s'] eqn:E; cbn [fst snd] in *.
  - unfold send. destruct (send_greeting_ok c);
      unfold emit, raise, set_greeting_sent;
      cbn [session greeting_sent temp_files trace fst snd];
      rewrite Hq; reflexivity.
  - unfold mret, M_ret. cbn [session greeting_sent temp_files trace fst snd].
    rewrite Hq. reflexivity.
Qed.

(** The iteration seen from the queue test on. *)
Lemma tick_from_queue c w w1 :
  (greeting_step c;; enqueue (arrivals c)) w = (w1, Some tt) ->
  tick w c =
    match (queue_step c;; decay_step c;; emit (act_sleep (1 # 10))) w1 with
    | (w', Some _) => w'
    | (w', None) => ((emit act_print;; emit (act_sleep 1)) w').1
    end.
Proof.
  intros H. unfold tick, tick_body.
  assert (E : (enqueue (arrivals c);; greeting_step c) w = (w1, Some tt)).
  { rewrite enqueue_greeting_step.
    unfold mbind at 1 in H. unfold M_bind at 1 in H.
    destruct (greeting_step c w) as [wa [[]|]]; [|discriminate].
    cbv beta in H. cbn [fst snd]. rewrite H. reflexivity. }
  rewrite <- (bind_assoc (enqueue (arrivals c)) (fun _ => greeting_step c)
                (fun _ => queue_step c;; decay_step c;;
                          emit (act_sleep (1 # 10)))).
  unfold mbind at 1. unfold M_bind at 1. rewrite E. reflexivity.
Qed.

Lemma queue_step_empty c w1 :
  processing_queue (session w1) = [] -> queue_step c w1 = (w1, Some tt).
Proof.
  intros H. unfold queue_step, mbind, M_bind, get_session. rewrite H. reflexivity.
Qed.

Lemma queue_step_event c w1 data rest w2 :
  processing_queue (session w1) = data :: rest ->
  (put_session (set_processing_queue rest (session w1));; handle_event c data) w1
    = (w2, Some tt) ->
  queue_step c w1 = evaluation_step c w2.
Proof.
  intros Hq H. unfold queue_step.
  unfold mbind at 1. unfold M_bind at 1. unfold get_session at 1. rewrite Hq.
  unfold mbind at 1 in H. unfold M_bind at 1 in H.
  unfold mbind at 1. unfold M_bind at 1.
  destruct (put_session (set_processing_queue rest (session w1)) w1) as [wp [[]|]];
    [|discriminate].
  unfold mbind at 1. unfold M_bind at 1. rewrite H. reflexivity.
Qed.

(** C2, as stated, fails: with one question asked and the clock at a
    multiple of 60 the evaluation is due, but the queue is empty and the
    iteration only sleeps: [update_evaluation] is not called. *)
Lemma no_evaluation_on_empty_queue :
  let w' := tick idle_worker (calls_at_120 []) in
  processing_queue (session idle_worker) = [] /\
  evaluation_due (session idle_worker) 120 = true /\
  evaluation_due (session w') 120 = true /\
  trace w' = [act_sleep (1 # 10)] /\
  evaluations w' = 0.
Proof. vm_compute. repeat split. Qed.

(** C2, amended: on an iteration of the worker that takes an event from the
    queue and handles it without raising, the evaluation trigger (at least
    one question asked and the clock, modulo 60, under 1) is tested after
    the handling, on the session the handling has left, and
    [update_evaluation] is called exactly when it holds; on an iteration
    that finds the queue empty, [update_evaluation] is not called. [w1] is
    the worker when the loop tests the queue. *)
Theorem evaluation_checked_after_event (w : Worker) (c : TickCalls) (w1 : Worker) :
  (greeting_step c;; enqueue (arrivals c)) w = (w1, Some tt) ->
  match processing_queue (session w1) with
  | [] => evaluations (tick w c) = evaluations w
  | data :: rest =>
      forall w2,
        (put_session (set_processing_queue rest (session w1));;
         handle_event c data) w1 = (w2, Some tt) ->
        evaluations (tick w c) =
          evaluations w +
            (if evaluation_due (session w2) (now_evaluation c) then 1 else 0)
  end.
Proof.
  intros H. rewrite (tick_from_queue c w w1 H).
  assert (Hw1 : evaluations w1 = evaluations w).
  { revert H. apply quiet_bind; [apply quiet_greeting_step|intros ?].
    apply quiet_enqueue. }
  destruct (processing_queue (session w1)) as [|data rest] eqn:Hq.
  - unfold mbind at 1. unfold M_bind at 1.
    pose proof (queue_step_empty c w1 Hq) as E. rewrite E.
    pose proof (tick_tail_evaluations c w1 (Some tt)) as Ht. simpl in Ht.
    rewrite <- Hw1. exact Ht.
  - intros w2 H2. unfold mbind at 1. unfold M_bind at 1.
    pose proof (queue_step_event c w1 data rest w2 Hq H2) as E. rewrite E.
    assert (Hw2 : evaluations w2 = evaluations w1).
    { revert H2. apply quiet_bind; [apply quiet_put_session|intros ?].
      apply quiet_handle_event. }
    pose proof (evaluation_step_evaluations c w2) as He.
    pose proof (evaluation_step_returns c w2) as Hr.
    destruct (evaluation_step c w2) as [w3 r3]. simpl in He, Hr. subst r3.
    pose proof (tick_tail_evaluations c w3 (Some tt)) as Ht. simpl in Ht.
    rewrite <- Hw1, <- Hw2, <- He. exact Ht.
Qed.

Lemma evaluation_checked_after_event_witness :
  evaluations (tick idle_worker (calls_at_120 [frame_event])) = 1 /\
  evaluations (tick idle_worker (calls_at_120 [])) = 0.
Proof.
  split.
  - pose proof (evaluation_checked_after_event idle_worker
                  (calls_at_120 [frame_event])
                  ((greeting_step (calls_at_120 [frame_event]);;
                    enqueue (arrivals (calls_at_120 [frame_event])))
                     idle_worker).1 eq_refl) as H.
    simpl processing_queue in H.
    exact (H _ eq_refl).
  - exact (evaluation_checked_after_event idle_worker (calls_at_120 [])
             idle_worker eq_refl).
Defined.

(** ** The worker runs operations *)

Lemma reaches_run s s' : reaches s s' <-> exists ops, s' = run s ops.
Proof.
  split.
  - induction 1 as [|s' op _ (ops & ->)].
    + exists []. reflexivity.
    + exists (ops ++ [op]). unfold run. rewrite foldl_app. reflexivity.
  - intros (ops & ->). induction ops as [|op ops IH] using rev_ind.
    + constructor.
    + unfold run. rewrite foldl_app. simpl. constructor. exact IH.
Qed.

Lemma reaches_trans s1 s2 s3 : reaches s1 s2 -> reaches s2 s3 -> reaches s1 s3.
Proof. intros H12 H23. induction H23; [exact H12|constructor; assumption]. Qed.

Lemma set_processing_queue_same s :
  set_processing_queue (processing_queue s) s = s.
Proof. destruct s. reflexivity. Qed.

Lemma reaches_put_all s evs :
  reaches s (set_processing_queue (processing_queue s ++ evs) s).
Proof.
  induction evs as [|ev evs IH] using rev_ind.
  - rewrite app_nil_r, set_processing_queue_same. constructor.
  - rewrite app_assoc.
    apply (reaches_step s _ (op_put ev)) in IH. exact IH.
Qed.

Lemma sound_at_ret {A} w (x : A) : sound_at w (mret x).
Proof. intros w' r [= <- _]. constructor. Qed.

Lemma sound_at_raise {A} w : sound_at w (@raise A).
Proof. intros w' r [= <- _]. constructor. Qed.

Lemma sound_at_emit w a : sound_at w (emit a).
Proof. intros w' r [= <- _]. constructor. Qed.

Lemma sound_at_send w ok m : sound_at w (send ok m).
Proof. destruct ok; [apply sound_at_emit|apply sound_at_raise]. Qed.

Lemma sound_at_report w printed m : sound_at w (report printed m).
Proof. destruct printed; [apply sound_at_emit|apply sound_at_ret]. Qed.

Lemma sound_at_set_greeting_sent w : sound_at w set_greeting_sent.
Proof. intros w' r [= <- _]. constructor. Qed.

Lemma sound_at_put_session w s :
  reaches (session w) s -> sound_at w (put_session s).
Proof. intros H w' r [= <- _]. exact H. Qed.

Lemma sound_at_bind {A B} w (m : M A) (f : A -> M B) :
  sound_at w m ->
  (forall w1 x, m w = (w1, Some x) -> sound_at w1 (f x)) ->
  sound_at w (m ≫= f).
Proof.
  intros Hm Hf w' r. unfold mbind, M_bind.
  destruct (m w) as [w1 [x|]] eqn:E.
  - intros H. eapply reaches_trans; [apply (Hm _ _ E)|apply (Hf _ _ eq_refl _ _ H)].
  - intros [= <- _]. apply (Hm _ _ E).
Qed.

Lemma sound_at_get_bind {B} w (f : InterviewSession -> M B) :
  sound_at w (f (session w)) -> sound_at w (get_session ≫= f).
Proof.
  intros H. apply sound_at_bind.
  - intros w' r [= <- _]. constructor.
  - intros w1 x [= <- <-]. exact H.
Qed.

Lemma sound_at_seq {A B} w (m : M A) (k : M B) :
  sound_at w m -> (forall w1, sound_at w1 k) -> sound_at w (m ;; k).
Proof. intros Hm Hk. apply sound_at_bind; [exact Hm|]. intros w1 x _. apply Hk. Qed.

Lemma reaches_one s op : reaches s (apply_op s op).
Proof. constructor. constructor. Qed.

Lemma sound_at_greeting_step c w : sound_at w (greeting_step c).
Proof.
  intros w' r. unfold greeting_step.
  destruct (negb (greeting_sent w) && websocket (session w));
    [|intros [= <- _]; constructor].
  revert w' r. change (sound_at w
    (emit (act_sleep 2);;
     s ← get_session;
     let '(greeting_msg, s') := generate_conversational_response s (now_greeting c) in
     put_session s';;
     match greeting_msg with
     | Some text => send (send_greeting_ok c) (msg_question text);; set_greeting_sent
     | None => mret tt
     end)).
  apply sound_at_bind; [apply sound_at_emit|]. intros w1 ? _.
  apply sound_at_get_bind.
  pose proof (reaches_one (session w1) (op_advance (now_greeting c))) as Hr.
  simpl in Hr.
  destruct (generate_conversational_response (session w1) (now_greeting c))
    as [msg s'].
  apply sound_at_seq; [apply sound_at_put_session, Hr|]. intros w2.
  destruct msg.
  - apply sound_at_seq; [apply sound_at_send|]. intros w3.
    apply sound_at_set_greeting_sent.
  - apply sound_at_ret.
Qed.

Lemma sound_at_enqueue evs w : sound_at w (enqueue evs).
Proof.
  unfold enqueue. apply sound_at_get_bind.
  apply sound_at_put_session, reaches_put_all.
Qed.

Lemma sound_at_handle_event c data w : sound_at w (handle_event c data).
Proof.
  unfold handle_event.
  destruct (bool_decide (ev_type data = lit "frame")).
  { apply sound_at_get_bind, sound_at_seq; [|intros w1; apply sound_at_report].
    apply sound_at_put_session.
    apply (reaches_one _ (op_frame (frame_text c))). }
  destruct (bool_decide (ev_type data = lit "audio")); [|apply sound_at_ret].
  apply sound_at_bind.
  { intros w' r.
    pose proof (reaches_one (session w) (op_audio (audio_call c))) as Hr.
    simpl in Hr.
    rewrite (add_audio_context_session _ ∅ (temp_files w)) in Hr.
    destruct (add_audio_context (session w) (temp_files w) (audio_call c)).
    intros [= <- _]. exact Hr. }
  intros w0 ? _. apply sound_at_seq; [apply sound_at_report|]. intros w1.
  apply sound_at_get_bind.
  destruct (bool_decide (interview_stage (session w1) ∈ [awaiting_name; project_intro])).
  { apply sound_at_bind; [apply sound_at_emit|]. intros w2 ? [= <-].
    pose proof (reaches_one (session w1) (op_advance (now_response c))) as Hr.
    simpl in Hr.
    destruct (generate_conversational_response (session w1) (now_response c))
      as [response s'].
    apply sound_at_seq; [apply sound_at_put_session, Hr|]. intros w3.
    destruct response; [|apply sound_at_ret].
    destruct (websocket s'); [apply sound_at_send|apply sound_at_ret]. }
  destruct (bool_decide (interview_stage (session w1) = presentation));
    [|apply sound_at_ret].
  pose proof (reaches_one (session w1) (op_question (question_call c))) as Hr.
  simpl in Hr.
  destruct (generate_question (session w1) (question_call c)) as [question s'].
  apply sound_at_seq; [apply sound_at_put_session, Hr|]. intros w3.
  apply sound_at_seq; [apply sound_at_report|]. intros w4.
  destruct question; [|apply sound_at_ret].
  destruct (websocket s'); [apply sound_at_send|apply sound_at_ret].
Qed.

Lemma sound_at_evaluation_step c w : sound_at w (evaluation_step c).
Proof.
  unfold evaluation_step. apply sound_at_get_bind.
  destruct (evaluation_due (session w) (now_evaluation c)); [|apply sound_at_ret].
  apply sound_at_bind; [apply sound_at_emit|]. intros w2 ? [= <-].
  pose proof (reaches_one (session w) (op_evaluate (evaluation_call c))) as Hr.
  simpl in Hr.
  destruct (update_evaluation (session w) (evaluation_call c)) as [s' m].
  apply sound_at_seq; [apply sound_at_put_session, Hr|]. intros w3.
  apply sound_at_seq; [|intros w4; apply sound_at_report].
  destruct m; [apply sound_at_emit|apply sound_at_ret].
Qed.

Lemma sound_at_queue_step c w : sound_at w (queue_step c).
Proof.
  unfold queue_step. apply sound_at_get_bind.
  destruct (processing_queue (session w)) as [|data rest] eqn:Hq;
    [apply sound_at_ret|].
  apply sound_at_seq.
  - apply sound_at_put_session.
    pose proof (reaches_one (session w) op_get) as Hr. simpl in Hr.
    rewrite Hq in Hr. exact Hr.
  - intros w1. apply sound_at_seq; [apply sound_at_handle_event|].
    intros w2. apply sound_at_evaluation_step.
Qed.

Lemma sound_at_decay_step c w : sound_at w (decay_step c).
Proof.
  unfold decay_step. apply sound_at_get_bind.
  destruct (has_spoken_recently (session w) && _); [|apply sound_at_ret].
  apply sound_at_put_session. apply (reaches_one _ op_decay).
Qed.

(** The session after an iteration of the worker is the session before it
    after some operations. *)
Lemma tick_reaches w c : reaches (session w) (session (tick w c)).
Proof.
  assert (Hbody : sound_at w (tick_body c)).
  { unfold tick_body.
    apply sound_at_seq; [apply sound_at_enqueue|]. intros w1.
    apply sound_at_seq; [apply sound_at_greeting_step|]. intros w2.
    apply sound_at_seq; [apply sound_at_queue_step|]. intros w3.
    apply sound_at_seq; [apply sound_at_decay_step|]. intros w4.
    apply sound_at_emit. }
  unfold tick. destruct (tick_body c w) as [w' [x|]] eqn:E.
  - apply (Hbody _ _ E).
  - apply (Hbody _ _ E).
Qed.

Lemma ticks_reaches w cs : reaches (session w) (session (ticks w cs)).
Proof.
  revert w. induction cs as [|c cs IH]; intros w; [constructor|].
  change (ticks w (c :: cs)) with (ticks (tick w c) cs).
  eapply reaches_trans; [apply tick_reaches | apply IH].
Qed.

(** The invariants of the session hold along the iterations of the worker
    started by the socket handler on a new session. *)
Lemma worker_invariants (sid : str) (cs : list TickCalls) (w : Worker) :
  session w = set_websocket true (init sid) ->
  let s := session (ticks w cs) in
  length (context s) <= 5000 /\ question_outstanding s /\ unstamped_greeting s.
Proof.
  intros Hw. simpl.
  destruct (proj1 (reaches_run _ _) (ticks_reaches w cs)) as (ops & ->).
  rewrite Hw.
  change (run (set_websocket true (init sid)) ops)
    with (run (init sid) (op_attach :: ops)).
  split; [|split].
  - apply run_context_bounded. simpl. lia.
  - apply run_outstanding. intros H. discriminate H.
  - apply run_unstamped. intros _. reflexivity.
Qed.

(** The stage never moves back from one iteration of the worker to a
    later one. *)
Lemma worker_stage_rank (w : Worker) (cs : list TickCalls) :
  stage_rank (interview_stage (session w))
    <= stage_rank (interview_stage (session (ticks w cs))).
Proof.
  destruct (proj1 (reaches_run _ _) (ticks_reaches w cs)) as (ops & ->).
  apply run_stage_rank.
Qed.

(** The first iteration of a fresh worker: two seconds of grace, the
    scripted greeting, the stage [awaiting_name]. *)
Example first_tick_greets :
  let w' := tick fresh_worker (calls_at_120 []) in
  trace w' =
    [act_sleep 2; act_send (msg_question greeting_text); act_sleep (1 # 10)] /\
  greeting_sent w' = true /\
  interview_stage (session w') = awaiting_name.
Proof. vm_compute. repeat split. Qed.

(** A send that raises sends the iteration to the handler of the loop. *)
Example first_tick_send_fails :
  let c := {| now_greeting := 120; send_greeting_ok := false; arrivals := [];
              frame_text := None; audio_call := failing_audio_call;
              now_response := 120;
              question_call := {| now_check := 120; generated := None;
                                  now_asked := 120 |};
              send_ok := true; now_evaluation := 120;
              evaluation_call := unscored; now_decay := 120 |} in
  let w' := tick fresh_worker c in
  trace w' = [act_sleep 2; act_print; act_sleep 1] /\
  greeting_sent w' = false /\
  interview_stage (session w') = awaiting_name.
Proof. vm_compute. repeat split. Qed.

(** * Further properties *)

(** ** Blank texts and word sets *)

Lemma drop_while_nil p (t : str) :
  drop_while p t = [] <-> forallb p t = true.
Proof.
  induction t as [|c t IH]; simpl; [tauto|].
  destruct (p c); simpl; [exact IH|]. split; discriminate.
Qed.

Lemma drop_while_keeps_some p (t : str) :
  forallb p t = false -> forallb p (drop_while p t) = false.
Proof.
  induction t as [|c t IH]; simpl; [discriminate|].
  destruct (p c) eqn:E; simpl; [exact IH|]. intros _. rewrite E. reflexivity.
Qed.

(** [s.strip(chars)] is empty exactly when [s] is made of [chars]. *)
Lemma strip_with_nil p (t : str) :
  strip_with p t = [] <-> forallb p t = true.
Proof.
  unfold strip_with. split.
  - intros H. destruct (forallb p t) eqn:E; [reflexivity|exfalso].
    apply drop_while_keeps_some in E.
    assert (H' : drop_while p (rev (drop_while p t)) = []).
    { apply (f_equal (@rev ascii)) in H. rewrite rev_involutive in H. exact H. }
    apply drop_while_nil in H'. rewrite forallb_rev_str in H'. congruence.
  - intros H. apply drop_while_nil in H. rewrite H. reflexivity.
Qed.

Lemma split_from_nil cur (t : str) :
  split_from cur t = [] <-> cur = [] /\ forallb is_space t = true.
Proof.
  revert cur. induction t as [|c t IH]; intros cur; simpl.
  - destruct cur; split; try tauto; try discriminate. intros [H _]. discriminate.
  - destruct (is_space c); simpl.
    + destruct cur.
      * rewrite IH. tauto.
      * split; [discriminate|]. intros [H _]. discriminate.
    + rewrite IH. split; [intros [H _]; discriminate|intros [_ H]; discriminate].
Qed.

(** [s.split()] is empty exactly when [s.strip()] is. *)
Lemma split_nil_iff_strip_nil (t : str) : split t = [] <-> strip t = [].
Proof.
  unfold split, strip. rewrite split_from_nil, strip_with_nil. tauto.
Qed.

Lemma is_space_lower_char c : is_space (lower_char c) = is_space c.
Proof.
  destruct c as [[] [] [] [] [] [] [] []]; reflexivity.
Qed.

Lemma lower_char_idem c : lower_char (lower_char c) = lower_char c.
Proof.
  destruct c as [[] [] [] [] [] [] [] []]; reflexivity.
Qed.

Lemma lower_idem (t : str) : lower (lower t) = lower t.
Proof.
  unfold lower. rewrite map_map. apply map_ext. exact lower_char_idem.
Qed.

Lemma forallb_is_space_lower (t : str) :
  forallb is_space (lower t) = forallb is_space t.
Proof.
  induction t as [|c t IH]; [reflexivity|].
  simpl. rewrite is_space_lower_char, IH. reflexivity.
Qed.

Lemma split_lower_nil (t : str) : split (lower t) = [] <-> split t = [].
Proof.
  unfold split. rewrite !split_from_nil, forallb_is_space_lower. tauto.
Qed.

(** The word set of a text is empty exactly when the text is blank. *)
Lemma word_set_empty_iff (t : str) : word_set t = ∅ <-> strip t = [].
Proof.
  rewrite <- split_nil_iff_strip_nil, <- split_lower_nil. unfold word_set.
  split.
  - intros H. destruct (split (lower t)) as [|w ws]; [reflexivity|exfalso].
    assert (Hin : w ∈ (∅ : gset str)).
    { rewrite <- H. apply elem_of_list_to_set. left. }
    exact (not_elem_of_empty w Hin).
  - intros ->. reflexivity.
Qed.

Lemma Zpos_of_nat n : 0 < n -> Z.pos (Pos.of_nat n) = Z.of_nat n.
Proof.
  intros H. rewrite <- (Nat2Pos.id n) at 2 by lia.
  symmetry. apply positive_nat_Z.
Qed.


(** ** The similarity of OCR texts *)

Lemma words_inter_comm (A B : gset str) : A ∩ B = B ∩ A.
Proof. apply (comm_L _). Qed.

Lemma words_union_comm (A B : gset str) : A ∪ B = B ∪ A.
Proof. apply (comm_L _). Qed.

Lemma words_inter_idem (A : gset str) : A ∩ A = A.
Proof. apply (idemp_L _). Qed.

Lemma words_union_idem (A : gset str) : A ∪ A = A.
Proof. apply (idemp_L _). Qed.

Lemma similarity_value (t1 t2 : str) :
  strip t1 <> [] -> strip t2 <> [] ->
  _similarity t1 t2 =
    (Z.of_nat (size (word_set t1 ∩ word_set t2))
       # Pos.of_nat (size (word_set t1 ∪ word_set t2)))%Q /\
  0 < size (word_set t1 ∪ word_set t2).
Proof.
  intros H1 H2.
  assert (E1 : word_set t1 <> ∅) by (rewrite word_set_empty_iff; exact H1).
  assert (E2 : word_set t2 <> ∅) by (rewrite word_set_empty_iff; exact H2).
  assert (Hpos : 0 < size (word_set t1 ∪ word_set t2)).
  { destruct (size (word_set t1 ∪ word_set t2)) eqn:E; [|lia].
    apply size_empty_iff in E. exfalso. apply E1.
    apply leibniz_equiv. apply equiv_empty.
    rewrite <- E. apply union_subseteq_l. }
  split; [|exact Hpos].
  unfold _similarity.
  rewrite (bool_decide_eq_false_2 _ E1), (bool_decide_eq_false_2 _ E2). simpl.
  destruct (Nat.ltb_spec 0 (size (word_set t1 ∪ word_set t2))); [reflexivity|lia].
Qed.

Lemma similarity_blank (t1 t2 : str) :
  strip t1 = [] \/ strip t2 = [] -> _similarity t1 t2 = 0%Q.
Proof.
  intros H. unfold _similarity.
  destruct H as [H|H]; apply word_set_empty_iff in H; rewrite H.
  - reflexivity.
  - rewrite orb_comm. reflexivity.
Qed.

(** The similarity of a text that is not blank with itself is 1. *)
Lemma similarity_self (t : str) : strip t <> [] -> (_similarity t t == 1)%Q.
Proof.
  intros H. destruct (similarity_value t t H H) as [-> Hpos].
  revert Hpos.
  rewrite words_inter_idem, words_union_idem.
  intros Hpos. unfold Qeq. simpl. rewrite (Zpos_of_nat _ Hpos). lia.
Qed.

(** X1: [_similarity] is symmetric and lies between 0 and 1. It is 0
    when either text has no word; otherwise it is the number of words the
    two texts share, letter case apart, over the number of words that
    either has, so that a text with a word is at similarity 1 with
    itself. *)
Theorem similarity_symmetric_bounded (t1 t2 : str) :
  _similarity t1 t2 = _similarity t2 t1 /\
  (0 <= _similarity t1 t2 <= 1)%Q /\
  (split t1 = [] \/ split t2 = [] -> _similarity t1 t2 = 0%Q) /\
  (split t1 <> [] -> split t2 <> [] ->
   _similarity t1 t2 =
     (Z.of_nat (size (word_set t1 ∩ word_set t2))
        # Pos.of_nat (size (word_set t1 ∪ word_set t2)))%Q /\
   0 < size (word_set t1 ∪ word_set t2)) /\
  (split t1 <> [] -> (_similarity t1 t1 == 1)%Q).
Proof.
  split; [|split; [|split; [|split]]].
  - unfold _similarity.
    rewrite (orb_comm (bool_decide (word_set t1 = ∅))).
    rewrite (words_inter_comm (word_set t1) (word_set t2)).
    rewrite (words_union_comm (word_set t1) (word_set t2)).
    reflexivity.
  - destruct (strip t1) as [|c1 r1] eqn:E1;
      [rewrite similarity_blank by (left; exact E1); split; discriminate|].
    destruct (strip t2) as [|c2 r2] eqn:E2;
      [rewrite similarity_blank by (right; exact E2); split; discriminate|].
    destruct (similarity_value t1 t2) as [-> Hpos]; try congruence.
    assert (Hle : size (word_set t1 ∩ word_set t2)
                  <= size (word_set t1 ∪ word_set t2)).
    { apply subseteq_size.
      etransitivity; [apply intersection_subseteq_l|apply union_subseteq_l]. }
    unfold Qle. simpl. rewrite (Zpos_of_nat _ Hpos). lia.
  - rewrite !split_nil_iff_strip_nil. apply similarity_blank.
  - rewrite !split_nil_iff_strip_nil. apply similarity_value.
  - rewrite split_nil_iff_strip_nil. apply similarity_self.
Qed.

Lemma similarity_symmetric_bounded_witness :
  _similarity (lit "  ") (lit "slide one") = 0%Q /\
  (_similarity (lit "slide one") (lit "slide one") == 1)%Q.
Proof.
  destruct (similarity_symmetric_bounded (lit "  ") (lit "slide one"))
    as (_ & _ & Hblank & _).
  destruct (similarity_symmetric_bounded (lit "slide one") [])
    as (_ & _ & _ & _ & Hself).
  split.
  - apply Hblank. left. vm_compute. reflexivity.
  - apply Hself. vm_compute. discriminate.
Defined.

(** Two texts of six words that share two of them, letter case apart. *)
Example similarity_of_shared_words :
  (_similarity (lit "Tiny Compiler turns source") (lit "the tiny COMPILER runs")
   == 2 # 6)%Q.
Proof. vm_compute. reflexivity. Qed.

Lemma word_set_lower (t : str) : word_set (lower t) = word_set t.
Proof. unfold word_set. rewrite lower_idem. reflexivity. Qed.

(** X2: the similarity ignores the case of the letters, those of the
    upper half of the character range included: a text and its lower-case
    form are at similarity 1 when the text is not blank, and putting
    either text in lower case does not change the similarity. *)
Theorem similarity_ignores_case (t1 t2 : str) :
  _similarity (lower t1) t2 = _similarity t1 t2 /\
  _similarity t1 (lower t2) = _similarity t1 t2 /\
  (strip t1 <> [] -> (_similarity t1 (lower t1) == 1)%Q).
Proof.
  assert (Hl : forall a b, _similarity (lower a) b = _similarity a b).
  { intros a b. unfold _similarity. rewrite word_set_lower. reflexivity. }
  assert (Hr : forall a b, _similarity a (lower b) = _similarity a b).
  { intros a b. unfold _similarity. rewrite word_set_lower. reflexivity. }
  split; [apply Hl|]. split; [apply Hr|].
  intros H. rewrite Hr. apply similarity_self, H.
Qed.

Lemma similarity_ignores_case_witness :
  let text := ascii_of_nat 201 :: lit "COLE Normale" in
  (_similarity text (lower text) == 1)%Q.
Proof.
  apply (similarity_ignores_case (ascii_of_nat 201 :: lit "COLE Normale") []).
  vm_compute. discriminate.
Defined.

(** The capital E with an acute accent, U+00C9, and its lower-case form
    U+00E9 make the same word. *)
Example similarity_of_accented_capital :
  lower (ascii_of_nat 201 :: lit "COLE") = ascii_of_nat 233 :: lit "cole" /\
  (_similarity [ascii_of_nat 201] [ascii_of_nat 233] == 1)%Q.
Proof. vm_compute. split; reflexivity. Qed.

(** The no-break space U+00A0 and NEL U+0085 separate words and are
    stripped like the ASCII white space. *)
Example split_on_upper_white_space :
  split (lit "one" ++ ascii_of_nat 160 :: lit "two" ++ ascii_of_nat 133 :: lit "three")
    = [lit "one"; lit "two"; lit "three"] /\
  strip (ascii_of_nat 160 :: lit " Because." ++ [ascii_of_nat 133])
    = lit "Because.".
Proof. vm_compute. split; reflexivity. Qed.

Lemma deque_append_last (x : str) (d : list str) : x ∈ deque_append x d.
Proof.
  unfold deque_append.
  rewrite length_app. simpl.
  destruct (Nat.le_gt_cases (length d + 1) 5) as [H|H].
  - replace (length d + 1 - 5) with 0 by lia. simpl.
    apply elem_of_app. right. left.
  - rewrite drop_app_le by lia. apply elem_of_app. right. left.
Qed.

(** X3: ingesting the same frame text twice in a row is the same as
    ingesting it once. *)
Theorem add_frame_context_twice (s : InterviewSession) (extracted : option str) :
  add_frame_context (add_frame_context s extracted) extracted =
  add_frame_context s extracted.
Proof.
  destruct extracted as [text|]; [|reflexivity].
  destruct (accepts s text) eqn:Ha.
  - apply add_frame_context_rejected.
    destruct (add_frame_context_accepted s text Ha) as [_ Hr].
    unfold accepts in *. destruct (strip text) as [|c r] eqn:Hs; [discriminate|].
    rewrite (is_duplicate_of text text); [reflexivity| |].
    + rewrite Hr. apply deque_append_last.
    + rewrite similarity_self by congruence. reflexivity.
  - rewrite !(add_frame_context_rejected s text Ha). reflexivity.
Qed.


(** ** The transcript buffer *)

Lemma extract_name_transcript t s :
  transcript (extract_name t s) = transcript s /\
  project_name (extract_name t s) = project_name s /\
  last_speech_time (extract_name t s) = last_speech_time s /\
  has_spoken_recently (extract_name t s) = has_spoken_recently s /\
  silence_start (extract_name t s) = silence_start s.
Proof.
  unfold extract_name.
  destruct (after_marker name_markers (split t)) as [[|next rest]|];
    simpl; destruct (split t); repeat (simpl; case_match); auto 10.
Qed.

Lemma extract_project_transcript t s :
  transcript (extract_project t s) = transcript s /\
  student_name (extract_project t s) = student_name s /\
  last_speech_time (extract_project t s) = last_speech_time s /\
  has_spoken_recently (extract_project t s) = has_spoken_recently s /\
  silence_start (extract_project t s) = silence_start s.
Proof.
  unfold extract_project. repeat case_match; auto 10.
Qed.

Lemma extract_facts_speech t s :
  transcript (extract_facts t s) = transcript s /\
  last_speech_time (extract_facts t s) = last_speech_time s /\
  has_spoken_recently (extract_facts t s) = has_spoken_recently s /\
  silence_start (extract_facts t s) = silence_start s.
Proof.
  unfold extract_facts. destruct (interview_stage s); auto.
  - destruct (extract_name_transcript t s) as (? & _ & ? & ? & ?). auto.
  - destruct (extract_project_transcript t s) as (? & _ & ? & ? & ?). auto.
Qed.

(** What the ingestion of a text that is not blank does to the speech
    attributes. *)
Lemma ingest_transcription_speech text t1 t2 s :
  strip text <> [] ->
  let s' := ingest_transcription text t1 t2 s in
  let appended := transcript s ++ lit " " ++ strip text in
  transcript s' =
    (if 3000 <? length appended then last_chars 2000 appended else appended) /\
  last_speech_time s' = t1 /\
  has_spoken_recently s' = true /\
  silence_start s' = None.
Proof.
  intros Hs. simpl. unfold ingest_transcription.
  destruct (strip text) as [|c rest] eqn:E; [congruence|].
  set (s4 := set_silence_start _ _).
  destruct (extract_facts_speech text s4) as (Ht & Hl & Hh & Hsil).
  set (s5 := extract_facts text s4) in *.
  assert (E4 : transcript s4 = transcript s ++ lit " " ++ c :: rest /\
               last_speech_time s4 = t1 /\ has_spoken_recently s4 = true /\
               silence_start s4 = None) by (subst s4; simpl; auto).
  destruct E4 as (E4t & E4l & E4h & E4s).
  clearbody s5 s4.
  set (s6 := if waiting_for_answer s5 then _ else s5).
  assert (E6 : transcript s6 = transcript s5 /\
               last_speech_time s6 = last_speech_time s5 /\
               has_spoken_recently s6 = has_spoken_recently s5 /\
               silence_start s6 = silence_start s5)
    by (subst s6; destruct (waiting_for_answer s5); simpl; auto).
  destruct E6 as (E6t & E6l & E6h & E6s). clearbody s6.
  rewrite E6t, Ht, E4t.
  change (lit " " ++ c :: rest) with (" "%char :: c :: rest) in *.
  destruct (3000 <? length (transcript s ++ " "%char :: c :: rest)); simpl;
    rewrite ?E6t, ?E6l, ?E6h, ?E6s, ?Ht, ?Hl, ?Hh, ?Hsil, ?E4t; auto.
Qed.

Lemma ingest_transcription_blank text t1 t2 s :
  strip text = [] -> ingest_transcription text t1 t2 s = s.
Proof. intros H. unfold ingest_transcription. rewrite H. reflexivity. Qed.

Lemma ingest_transcription_bounded text t1 t2 s :
  length (transcript s) <= 3000 ->
  length (transcript (ingest_transcription text t1 t2 s)) <= 3000.
Proof.
  intros Hs. destruct (strip text) as [|c rest] eqn:E.
  - rewrite ingest_transcription_blank by exact E. exact Hs.
  - destruct (ingest_transcription_speech text t1 t2 s) as (-> & _);
      [congruence|].
    rewrite E.
    destruct (Nat.ltb_spec 3000 (length (transcript s ++ lit " " ++ c :: rest))).
    + rewrite last_chars_length; lia.
    + assumption.
Qed.

Lemma add_audio_context_bounded s files call :
  length (transcript s) <= 3000 ->
  length (transcript (add_audio_context s files call).1) <= 3000.
Proof.
  intros Hs. unfold add_audio_context.
  destruct (audio_bytes call) as [bytes|]; [|exact Hs].
  destruct (length bytes <? 1000); [exact Hs|].
  destruct (write_outcome call); try exact Hs.
  destruct (transcribed call) as [text|]; [|exact Hs].
  apply ingest_transcription_bounded, Hs.
Qed.


(** ** The shape of what each method writes *)

Lemma add_frame_context_shape s extracted :
  add_frame_context s extracted = s \/
  exists c r, add_frame_context s extracted =
              set_recent_ocr_texts r (set_context c s).
Proof.
  unfold add_frame_context.
  destruct extracted as [text|]; [|auto].
  destruct (strip text); [auto|].
  destruct (is_duplicate _ _); [auto|].
  right. eauto.
Qed.

Lemma should_ask_question_shape s now :
  (should_ask_question s now).2 = s \/
  (should_ask_question s now).2 = set_silence_start (Some now) s.
Proof.
  unfold should_ask_question. repeat case_match; simpl; auto.
Qed.

Lemma generate_conversational_response_shape s now :
  (generate_conversational_response s now).2 = s \/
  (generate_conversational_response s now).2 = set_last_response_time now s \/
  exists st, (generate_conversational_response s now).2 =
             set_last_response_time now (set_interview_stage st s).
Proof.
  unfold generate_conversational_response. repeat case_match; simpl; eauto.
Qed.

Lemma update_evaluation_shape s call :
  (update_evaluation s call).1 = s \/
  exists m, (update_evaluation s call).1 = set_evaluation_scores m s.
Proof.
  rewrite update_evaluation_session. destruct (parsed call); eauto.
Qed.

(** What [generate_question] does, from the outcome of the policy. *)
Lemma generate_question_shape s call :
  let s1 := (should_ask_question s (now_check call)).2 in
  generate_question s call = (None, s1) \/
  exists content,
    (should_ask_question s (now_check call)).1 = true /\
    generated call = Some content /\
    strip content <> [] /\
    generate_question s call =
      (Some (strip content),
       set_last_question_time (now_asked call)
         (set_waiting_for_answer true
            (set_current_question (Some (strip content))
               (set_questions_asked (questions_asked s1 ++ [strip content]) s1)))).
Proof.
  simpl. unfold generate_question.
  destruct (should_ask_question s (now_check call)) as [ask s1]. simpl.
  destruct ask; simpl; [|auto].
  destruct (generated call) as [content|]; [|auto].
  destruct (strip content) as [|c r] eqn:E; [auto|].
  right. exists content. rewrite E. repeat split; auto; discriminate.
Qed.

Lemma apply_op_keeps_speech_state s op :
  (forall call, op <> op_audio call) ->
  speech_state (apply_op s op) = speech_state s.
Proof.
  intros Hop. unfold speech_state. destruct op; simpl.
  - destruct (add_frame_context_shape s extracted) as [->|(c & r & ->)];
      reflexivity.
  - exfalso. eapply Hop. reflexivity.
  - destruct (generate_conversational_response_shape s now)
      as [->|[->|(st & ->)]]; reflexivity.
  - destruct (should_ask_question_shape s now) as [->| ->]; reflexivity.
  - pose proof (generate_question_shape s call) as H. simpl in H.
    destruct H as [->|(content & _ & _ & _ & ->)]; simpl;
      destruct (should_ask_question_shape s (now_check call)) as [->| ->];
      reflexivity.
  - destruct (update_evaluation_shape s call) as [->|(m & ->)]; reflexivity.
  - reflexivity.
  - reflexivity.
  - reflexivity.
  - reflexivity.
Qed.

Lemma apply_op_keeps_question_state s op :
  (forall call, op <> op_audio call) ->
  (forall call, op <> op_question call) ->
  question_state (apply_op s op) = question_state s.
Proof.
  intros Hop Hop'. unfold question_state. destruct op; simpl.
  - destruct (add_frame_context_shape s extracted) as [->|(c & r & ->)];
      reflexivity.
  - exfalso. eapply Hop. reflexivity.
  - destruct (generate_conversational_response_shape s now)
      as [->|[->|(st & ->)]]; reflexivity.
  - destruct (should_ask_question_shape s now) as [->| ->]; reflexivity.
  - exfalso. eapply Hop'. reflexivity.
  - destruct (update_evaluation_shape s call) as [->|(m & ->)]; reflexivity.
  - reflexivity.
  - reflexivity.
  - reflexivity.
  - reflexivity.
Qed.

(** ** The transcript never exceeds its cap *)

Lemma apply_op_keeps_transcript s op :
  (forall call, op <> op_audio call) ->
  transcript (apply_op s op) = transcript s.
Proof.
  intros H.
  exact (f_equal (fun p => p.1.1.1) (apply_op_keeps_speech_state s op H)).
Qed.

Lemma apply_op_transcript_bounded s op :
  length (transcript s) <= 3000 -> length (transcript (apply_op s op)) <= 3000.
Proof.
  intros Hs. destruct op as [|call| | | | | | | |];
    [| apply add_audio_context_bounded, Hs | ..];
    (rewrite apply_op_keeps_transcript; [exact Hs | discriminate]).
Qed.

(** X4: the transcript never exceeds 3000 characters along a sequence of
    operations from the initial session, and when a transcription brings
    it over 3000 characters exactly the trailing 2000 characters of the
    extended buffer remain: the new transcript has 2000 characters and the
    extended buffer is some dropped characters followed by it. *)
Theorem transcript_capped (sid : str) (ops : list Op)
    (s : InterviewSession) (text : str) (t1 t2 : Q) :
  length (transcript (run (init sid) ops)) <= 3000 /\
  (strip text <> [] ->
   3000 < length (transcript s ++ lit " " ++ strip text) ->
   transcript (ingest_transcription text t1 t2 s) =
     last_chars 2000 (transcript s ++ lit " " ++ strip text) /\
   length (transcript (ingest_transcription text t1 t2 s)) = 2000 /\
   exists dropped,
     transcript s ++ lit " " ++ strip text =
       dropped ++ transcript (ingest_transcription text t1 t2 s)).
Proof.
  split.
  - assert (H : forall s0, length (transcript s0) <= 3000 ->
                           length (transcript (run s0 ops)) <= 3000).
    { induction ops as [|op ops' IH]; intros s0 H0; [exact H0|].
      change (run s0 (op :: ops')) with (run (apply_op s0 op) ops').
      apply IH, apply_op_transcript_bounded, H0. }
    apply H. simpl. lia.
  - intros Hs Hlen.
    destruct (ingest_transcription_speech text t1 t2 s Hs) as (-> & _).
    destruct (Nat.ltb_spec 3000 (length (transcript s ++ lit " " ++ strip text)));
      [|lia].
    split; [reflexivity|]. split; [apply last_chars_length; lia|].
    apply last_chars_suffix.
Qed.

Lemma transcript_capped_witness :
  transcript
    (ingest_transcription (lit " b ") 10 10
       (set_transcript (replicate 3000 "a"%char) (init (lit "s1"))))
  = replicate 1998 "a"%char ++ lit " b".
Proof.
  destruct (transcript_capped (lit "s1") []
              (set_transcript (replicate 3000 "a"%char) (init (lit "s1")))
              (lit " b ") 10 10) as (_ & Hcut).
  destruct Hcut as (Hkept & _).
  - vm_compute. discriminate.
  - apply Nat.ltb_lt. vm_compute. reflexivity.
  - rewrite Hkept. vm_compute. reflexivity.
Defined.

(** ** Audio ingestion that hears nothing *)

(** X5: an audio ingestion changes the session only when the transcription
    returns a text that is not blank: when the payload cannot be decoded,
    is shorter than 1000 bytes or cannot be written, when the
    transcription raises, or when its text is blank, the session is as
    before. *)
Theorem add_audio_context_soft_failure
    (s : InterviewSession) (files : gset TempFile) (call : AudioCall) :
  audio_bytes call = None \/
  (exists bytes, audio_bytes call = Some bytes /\ length bytes < 1000) \/
  write_outcome call <> written \/
  transcribed call = None \/
  (exists text, transcribed call = Some text /\ strip text = []) ->
  (add_audio_context s files call).1 = s.
Proof.
  intros H. unfold add_audio_context.
  destruct (audio_bytes call) as [bytes|] eqn:Eb; [|reflexivity].
  destruct (Nat.ltb_spec (length bytes) 1000) as [Hlt|Hge]; [reflexivity|].
  destruct (write_outcome call) eqn:Ew; [|reflexivity|reflexivity].
  destruct (transcribed call) as [text|] eqn:Et; [|reflexivity].
  simpl. destruct H as [H|[(b & [= <-] & H)|[H|[H|(t & [= <-] & H)]]]];
    try discriminate; try lia; try congruence.
  apply ingest_transcription_blank, H.
Qed.

Lemma add_audio_context_soft_failure_witness :
  (add_audio_context waiting_session ∅ failing_audio_call).1 = waiting_session.
Proof.
  apply add_audio_context_soft_failure.
  right. right. right. left. reflexivity.
Defined.


(** ** The question policy *)

(** The conditions under which [should_ask_question] answers true. *)
Lemma should_ask_question_conditions (s : InterviewSession) (now : Q) :
  (should_ask_question s now).1 = true <->
  interview_stage s = presentation /\
  waiting_for_answer s = false /\
  (5 <= now - last_question_time s)%Q /\
  length (questions_asked s) < 5 /\
  (has_spoken_recently s = true -> (5 <= now - last_speech_time s)%Q) /\
  200 < length (context s) + length (transcript s).
Proof.
  unfold should_ask_question.
  destruct (interview_stage s) eqn:Hst;
    try (split; [intros H; vm_compute in H; discriminate H
                | intros (H & _); discriminate H]).
  replace (bool_decide (presentation ∈ [greeting; awaiting_name; project_intro]))
    with false by (vm_compute; reflexivity).
  destruct (waiting_for_answer s) eqn:Hw; cbn [fst];
    [split; [discriminate | intros (_ & H & _); discriminate]|].
  destruct (Qltb (now - last_question_time s) 5) eqn:Hq; cbn [fst].
  { apply Qltb_lt in Hq. split; [discriminate|]. intros (_ & _ & H & _). lra. }
  apply Qltb_ge in Hq.
  destruct (Nat.leb_spec 5 (length (questions_asked s))) as [Hn|Hn]; cbn [fst].
  { split; [discriminate|]. intros (_ & _ & _ & H & _). lia. }
  assert (Hlen : forall s', context s' = context s -> transcript s' = transcript s ->
    (200 <? length (context s' ++ transcript s')) = true <->
    200 < length (context s) + length (transcript s)).
  { intros s' -> ->. rewrite Nat.ltb_lt, length_app. reflexivity. }
  destruct (has_spoken_recently s) eqn:Hh; cbn [fst].
  - set (s1 := match silence_start s with
               | Some _ => s
               | None => set_silence_start (Some now) s
               end).
    assert (E1 : context s1 = context s /\ transcript s1 = transcript s /\
                 last_speech_time s1 = last_speech_time s)
      by (subst s1; destruct (silence_start s); cbn [fst]; auto).
    destruct E1 as (Ec & Et & El). rewrite El.
    destruct (Qltb (now - last_speech_time s) 5) eqn:Hsp; cbn [fst].
    + apply Qltb_lt in Hsp. split; [discriminate|].
      intros (_ & _ & _ & _ & H & _). specialize (H eq_refl). lra.
    + apply Qltb_ge in Hsp. rewrite (Hlen s1 Ec Et).
      split; [intros H; repeat split; auto | intros (_ & _ & _ & _ & _ & H); exact H].
  - rewrite (Hlen s eq_refl eq_refl).
    split; [intros H; repeat split; auto; discriminate
           | intros (_ & _ & _ & _ & _ & H); exact H].
Qed.

(** X6: [should_ask_question] answers true exactly when the stage is
    presentation, no question is outstanding, at least 5 seconds have
    passed since the last question, fewer than 5 questions were asked,
    the candidate has not spoken in the last 5 seconds if
    [has_spoken_recently] is set, and context and transcript hold more
    than 200 characters together. *)
Theorem should_ask_question_true_iff (s : InterviewSession) (now : Q) :
  (should_ask_question s now).1 = true <->
  interview_stage s = presentation /\
  waiting_for_answer s = false /\
  (5 <= now - last_question_time s)%Q /\
  length (questions_asked s) < 5 /\
  (has_spoken_recently s = true -> (5 <= now - last_speech_time s)%Q) /\
  200 < length (context s) + length (transcript s).
Proof. exact (should_ask_question_conditions s now). Qed.

Lemma should_ask_question_true_iff_witness :
  (should_ask_question
     (set_questions_asked [lit "q1"; lit "q2"; lit "q3"; lit "q4"] full_session)
     1000).1 = true.
Proof.
  apply should_ask_question_true_iff. vm_compute.
  repeat split; try reflexivity; try discriminate; lia.
Defined.




(** Once the worker has cleared the flag, here at 1004.5 for a speech
    stamped 1001, a question is asked 4 seconds after the speech. *)
Example question_four_seconds_after_speech :
  let s := (add_audio_context (set_context (replicate 300 "a"%char)
                                 (set_interview_stage presentation (init (lit "s1"))))
              ∅ (speech "It parses the input first." 1000)).1 in
  let c := {| now_greeting := 1004; send_greeting_ok := true; arrivals := [];
              frame_text := None; audio_call := speech "hello" 1004;
              now_response := 1004;
              question_call := {| now_check := 1004; generated := None;
                                  now_asked := 1004 |};
              send_ok := true; now_evaluation := 1004;
              evaluation_call := unscored; now_decay := 1004 + (1 # 2) |} in
  let w := {| session := s; greeting_sent := true; temp_files := ∅;
              trace := [] |} in
  last_speech_time s = 1001%Q /\
  (generate_question (session (tick w c))
     {| now_check := 1005; generated := Some (lit "Why?"); now_asked := 1005 |}).1
  = Some (lit "Why?").
Proof. vm_compute. split; reflexivity. Qed.

(** ** The questions asked and their answers *)

(** What the ingestion of a text that is not blank does to the question
    bookkeeping. *)
Lemma ingest_transcription_questions text t1 t2 s :
  strip text <> [] ->
  let s' := ingest_transcription text t1 t2 s in
  qa_pairs s' =
    qa_pairs s ++
      (if waiting_for_answer s
       then [{| qa_question := current_question s; qa_answer := strip text;
                qa_timestamp := t2 |}]
       else []) /\
  waiting_for_answer s' = false /\
  current_question s' = current_question s /\
  questions_asked s' = questions_asked s /\
  last_question_time s' = last_question_time s.
Proof.
  intros Hs. simpl.
  assert (Hlq : last_question_time (ingest_transcription text t1 t2 s)
                = last_question_time s).
  { unfold ingest_transcription.
    destruct (strip text) as [|c rest]; [reflexivity|].
    set (s4 := set_silence_start _ _).
    assert (E : last_question_time (extract_facts text s4) = last_question_time s).
    { unfold extract_facts, extract_name, extract_project.
      repeat case_match; reflexivity. }
    repeat case_match; simpl; exact E. }
  destruct (ingest_transcription_frame text t1 t2 s)
    as ((_ & _ & _ & _ & Hq & Hqs) & _).
  destruct (waiting_for_answer s) eqn:Hw.
  - destruct (ingest_transcription_answer s text t1 t2 Hs Hw) as (H1 & H2 & H3).
    auto.
  - unfold ingest_transcription in *.
    destruct (strip text) as [|c rest] eqn:E; [congruence|].
    set (s4 := set_silence_start _ _) in *.
    destruct (extract_facts_keeps text s4) as (_ & Hw5 & Hp5).
    assert (E4 : waiting_for_answer s4 = false /\ qa_pairs s4 = qa_pairs s)
      by (subst s4; simpl; auto).
    destruct E4 as (E4w & E4p). rewrite E4w in Hw5. rewrite E4p in Hp5.
    rewrite Hw5 in *. rewrite app_nil_r.
    repeat case_match; simpl; auto.
Qed.

Lemma add_audio_context_questions s files call :
  let s' := (add_audio_context s files call).1 in
  (question_state s' = question_state s \/
   exists text t2,
     qa_pairs s' =
       qa_pairs s ++
         (if waiting_for_answer s
          then [{| qa_question := current_question s; qa_answer := strip text;
                   qa_timestamp := t2 |}]
          else []) /\
     waiting_for_answer s' = false) /\
  current_question s' = current_question s /\
  questions_asked s' = questions_asked s /\
  last_question_time s' = last_question_time s.
Proof.
  simpl. unfold add_audio_context.
  destruct (audio_bytes call) as [bytes|]; [|auto].
  destruct (length bytes <? 1000); [auto|].
  destruct (write_outcome call); [|auto|auto].
  destruct (transcribed call) as [text|]; [|auto].
  simpl. destruct (strip text) as [|c r] eqn:E.
  - rewrite ingest_transcription_blank by exact E. auto.
  - destruct (ingest_transcription_questions text (now_speech call)
                (now_answer call) s) as (H1 & H2 & H3 & H4 & H5); [congruence|].
    split; [right; eauto | auto].
Qed.

Lemma apply_op_answers_follow_questions s op :
  answers_follow_questions s -> answers_follow_questions (apply_op s op).
Proof.
  unfold answers_follow_questions. intros Hs.
  assert (Hother : (forall call, op <> op_audio call) ->
                   (forall call, op <> op_question call) ->
                   answers_follow_questions (apply_op s op)).
  { intros H1 H2. pose proof (apply_op_keeps_question_state s op H1 H2) as E.
    unfold question_state in E. injection E as E1 E2 E3 E4 _.
    unfold answers_follow_questions. rewrite E1, E2, E3, E4. exact Hs. }
  destruct op as [|call| | |call| | | | |]; try (apply Hother; discriminate);
    clear Hother; simpl.
  - destruct (add_audio_context_questions s ∅ call)
      as ([E | (text & t2 & Hqa & Hw)] & Hc & Hq & _).
    + unfold question_state in E. injection E as E1 E2 E3 E4 _.
      rewrite E1, E2, E3, E4. exact Hs.
    + rewrite Hqa, Hw, Hq, app_nil_r, map_app, <- Hs.
      destruct (waiting_for_answer s); reflexivity.
  - pose proof (generate_question_shape s call) as H. simpl in H.
    assert (E1 : question_state (should_ask_question s (now_check call)).2
                 = question_state s)
      by (destruct (should_ask_question_shape s (now_check call)) as [->| ->];
          reflexivity).
    unfold question_state in E1. injection E1 as Eq Ep Ew Ec _.
    destruct H as [-> | (content & Hask & _ & _ & ->)]; simpl.
    + rewrite Eq, Ep, Ew, Ec. exact Hs.
    + apply should_ask_question_conditions in Hask.
      destruct Hask as (_ & Hw & _).
      rewrite Ep, Eq, map_app, <- Hs, Hw, app_nil_r. reflexivity.
Qed.

Lemma run_answers_follow_questions s0 ops :
  answers_follow_questions s0 -> answers_follow_questions (run s0 ops).
Proof.
  revert s0. induction ops as [|op ops' IH]; intros s0 H0; [exact H0|].
  change (run s0 (op :: ops')) with (run (apply_op s0 op) ops').
  apply IH, apply_op_answers_follow_questions, H0.
Qed.

Lemma answers_follow_questions_count s :
  answers_follow_questions s ->
  length (qa_pairs s) + (if waiting_for_answer s then 1 else 0)
    = length (questions_asked s).
Proof.
  unfold answers_follow_questions. intros H.
  apply (f_equal length) in H. rewrite length_app, !length_map in H.
  destruct (waiting_for_answer s); exact H.
Qed.

Lemma apply_op_questions_bounded s op :
  length (questions_asked s) <= 5 ->
  length (questions_asked (apply_op s op)) <= 5.
Proof.
  intros Hs.
  assert (Hother : (forall call, op <> op_audio call) ->
                   (forall call, op <> op_question call) ->
                   length (questions_asked (apply_op s op)) <= 5).
  { intros H1 H2. pose proof (apply_op_keeps_question_state s op H1 H2) as E.
    unfold question_state in E. injection E as E1 _ _ _ _.
    rewrite E1. exact Hs. }
  destruct op as [|call| | |call| | | | |]; try (apply Hother; discriminate);
    clear Hother; simpl.
  - destruct (add_audio_context_questions s ∅ call) as (_ & _ & -> & _).
    exact Hs.
  - pose proof (generate_question_shape s call) as H. simpl in H.
    assert (E1 : questions_asked (should_ask_question s (now_check call)).2
                 = questions_asked s)
      by (destruct (should_ask_question_shape s (now_check call)) as [->| ->];
          reflexivity).
    destruct H as [-> | (content & Hask & _ & _ & ->)]; simpl.
    + rewrite E1. exact Hs.
    + apply should_ask_question_conditions in Hask.
      destruct Hask as (_ & _ & _ & Hn & _).
      rewrite E1, length_app. simpl. lia.
Qed.

Lemma run_questions_bounded s0 ops :
  length (questions_asked s0) <= 5 ->
  length (questions_asked (run s0 ops)) <= 5.
Proof.
  revert s0. induction ops as [|op ops' IH]; intros s0 H0; [exact H0|].
  change (run s0 (op :: ops')) with (run (apply_op s0 op) ops').
  apply IH, apply_op_questions_bounded, H0.
Qed.

(** X8: after any sequence of operations from the initial session, the
    questions of the recorded answers, in order and followed by the
    outstanding question if there is one, are exactly the questions
    asked: every answer is paired with the question it answers, and the
    number of answers is the number of questions asked, less one while a
    question is outstanding. *)
Theorem answers_pair_with_questions (sid : str) (ops : list Op) :
  let s := run (init sid) ops in
  answers_follow_questions s /\
  length (qa_pairs s) + (if waiting_for_answer s then 1 else 0)
    = length (questions_asked s).
Proof.
  simpl.
  pose proof (run_answers_follow_questions (init sid) ops eq_refl) as H.
  split; [exact H|apply answers_follow_questions_count, H].
Qed.

(** X9: at most five questions are ever asked: after any sequence of
    operations from the initial session, [questions_asked] holds at most
    five questions. *)
Theorem at_most_five_questions (sid : str) (ops : list Op) :
  length (questions_asked (run (init sid) ops)) <= 5.
Proof. apply run_questions_bounded. simpl. lia. Qed.


(** X10: [generate_question] either returns nothing, and then changes
    nothing but [silence_start], which the policy may set to its clock
    reading; or returns the stripped, non-empty reply of the generation
    service, appends it to [questions_asked], makes it the current
    question, sets [waiting_for_answer] and stamps [last_question_time]. *)
Theorem generate_question_effects (s : InterviewSession) (call : QuestionCall) :
  let s' := (generate_question s call).2 in
  match (generate_question s call).1 with
  | None => s' = s \/ s' = set_silence_start (Some (now_check call)) s
  | Some question =>
      question <> [] /\
      (exists content,
         generated call = Some content /\ question = strip content) /\
      questions_asked s' = questions_asked s ++ [question] /\
      current_question s' = Some question /\
      waiting_for_answer s' = true /\
      last_question_time s' = now_asked call
  end.
Proof.
  simpl. pose proof (generate_question_shape s call) as H. simpl in H.
  destruct H as [-> | (content & _ & Hg & Hne & ->)]; simpl.
  - apply should_ask_question_shape.
  - split; [exact Hne|]. split; [eauto|].
    destruct (should_ask_question_shape s (now_check call)) as [->| ->];
      simpl; auto.
Qed.

(** ** The extracted facts *)

Lemma extract_facts_names text s :
  (interview_stage s <> awaiting_name ->
   student_name (extract_facts text s) = student_name s) /\
  (interview_stage s <> project_intro ->
   project_name (extract_facts text s) = project_name s).
Proof.
  unfold extract_facts. destruct (interview_stage s); split; intros H;
    try reflexivity; try congruence.
  - destruct (extract_name_transcript text s) as (_ & -> & _). reflexivity.
  - destruct (extract_project_transcript text s) as (_ & -> & _). reflexivity.
Qed.

Lemma ingest_transcription_names text t1 t2 s :
  (interview_stage s <> awaiting_name ->
   student_name (ingest_transcription text t1 t2 s) = student_name s) /\
  (interview_stage s <> project_intro ->
   project_name (ingest_transcription text t1 t2 s) = project_name s).
Proof.
  unfold ingest_transcription.
  destruct (strip text) as [|c rest]; [auto|].
  set (s4 := set_silence_start _ _).
  destruct (extract_facts_names text s4) as (Hn & Hp).
  assert (E4 : interview_stage s4 = interview_stage s /\
               student_name s4 = student_name s /\
               project_name s4 = project_name s) by (subst s4; simpl; auto).
  destruct E4 as (E4s & E4n & E4p). rewrite E4s, E4n in Hn. rewrite E4s, E4p in Hp.
  clearbody s4.
  split; intros H; repeat case_match; simpl; auto.
Qed.

(** X11: [student_name] is written only by an audio ingestion in the stage
    awaiting_name, and [project_name] only by an audio ingestion in the
    stage project_intro; every other operation keeps both. *)
Theorem names_written_in_their_stage (s : InterviewSession) (op : Op) :
  (student_name (apply_op s op) <> student_name s ->
   (exists call, op = op_audio call) /\ interview_stage s = awaiting_name) /\
  (project_name (apply_op s op) <> project_name s ->
   (exists call, op = op_audio call) /\ interview_stage s = project_intro).
Proof.
  assert (Hother : (forall call, op <> op_audio call) ->
                   student_name (apply_op s op) = student_name s /\
                   project_name (apply_op s op) = project_name s).
  { intros H. pose proof (apply_op_keeps_speech_state s op H) as E.
    unfold speech_state in E. injection E as _ E2 E3 _. auto. }
  destruct op as [|call| | | | | | | |];
    try (destruct Hother as [E1 E2]; [discriminate|];
         split; intros H; congruence).
  clear Hother. simpl.
  assert (Hn : interview_stage s <> awaiting_name ->
               student_name (add_audio_context s ∅ call).1 = student_name s).
  { intros H. unfold add_audio_context. repeat case_match; simpl; auto.
    apply ingest_transcription_names, H. }
  assert (Hp : interview_stage s <> project_intro ->
               project_name (add_audio_context s ∅ call).1 = project_name s).
  { intros H. unfold add_audio_context. repeat case_match; simpl; auto.
    apply ingest_transcription_names, H. }
  split; intros H; (split; [eauto|]).
  - destruct (decide (interview_stage s = awaiting_name)) as [E|E]; [exact E|].
    exfalso. apply H, Hn, E.
  - destruct (decide (interview_stage s = project_intro)) as [E|E]; [exact E|].
    exfalso. apply H, Hp, E.
Qed.

Lemma names_written_in_their_stage_witness :
  let s := run (init (lit "s1")) (take 2 interview) in
  student_name (apply_op s (op_audio (speech "I'm Alex." 1005))) = lit "Alex" /\
  interview_stage s = awaiting_name.
Proof.
  split; [vm_compute; reflexivity|].
  apply (names_written_in_their_stage
           (run (init (lit "s1")) (take 2 interview))
           (op_audio (speech "I'm Alex." 1005))).
  vm_compute. discriminate.
Defined.

(** ** The evaluation scores *)

Lemma update_scores_app m l1 l2 :
  update_scores m (l1 ++ l2) = update_scores (update_scores m l1) l2.
Proof. unfold update_scores. apply foldl_app. Qed.

Lemma update_scores_absent (m : gmap string Q) parsed k :
  k ∉ parsed.*1 -> update_scores m parsed !! k = m !! k.
Proof.
  revert m. induction parsed as [|[k' v] parsed IH]; intros m Hk; [reflexivity|].
  simpl in *. apply not_elem_of_cons in Hk as [Hne Hk].
  change (update_scores m ((k', v) :: parsed))
    with (update_scores (<[k' := v]> m) parsed).
  rewrite IH by exact Hk. apply lookup_insert_ne. congruence.
Qed.

(** What goes out on the socket. *)
Lemma update_evaluation_message s call m :
  (update_evaluation s call).2 = Some m <->
  exists scores,
    parsed call = Some scores /\
    update_completes call = true /\
    websocket s = true /\
    evaluation_sent call = true /\
    m = msg_evaluation (update_scores (evaluation_scores s) scores).
Proof.
  unfold update_evaluation.
  destruct (parsed call) as [scores|]; simpl;
    [|split; [discriminate|intros (? & ? & _); discriminate]].
  replace (websocket (set_evaluation_scores
                        (update_scores (evaluation_scores s) scores) s))
    with (websocket s) by reflexivity.
  destruct (update_completes call), (websocket s), (evaluation_sent call);
    simpl; split;
    try discriminate;
    try (intros (? & _ & ? & ? & ? & _); discriminate).
  - intros [= <-]. exists scores. auto.
  - intros (scores' & [= <-] & _ & _ & _ & ->). reflexivity.
Qed.

(** X12: [update_evaluation] merges what [dict.update] has written into
    [evaluation_scores], whether the update completes or raises on a later
    element of the reply: a field it wrote has the last value written for
    it, and every other field keeps its value. When the reply is not
    obtained the session is unchanged. The evaluation message goes out
    exactly when the update completes, a socket is attached and the send
    returns, and it carries the merged scores; with a socket attached,
    the method has printed an error whenever no message went out. *)
Theorem update_evaluation_merges (s : InterviewSession) (call : EvaluationCall)
    (before after : list (string * Q)) (k : string) (v : Q) :
  (parsed call = Some (before ++ after) ->
   forall k', k' ∉ (before ++ after).*1 ->
     evaluation_scores (update_evaluation s call).1 !! k'
       = evaluation_scores s !! k') /\
  (parsed call = Some (before ++ (k, v) :: after) ->
   k ∉ after.*1 ->
   evaluation_scores (update_evaluation s call).1 !! k = Some v) /\
  (parsed call = None -> (update_evaluation s call).1 = s) /\
  (forall m,
     (update_evaluation s call).2 = Some m <->
     exists scores,
       parsed call = Some scores /\
       update_completes call = true /\
       websocket s = true /\
       evaluation_sent call = true /\
       m = msg_evaluation (update_scores (evaluation_scores s) scores)) /\
  (websocket s = true ->
   (update_evaluation s call).2 = None ->
   update_evaluation_prints s call = true).
Proof.
  split; [|split; [|split; [|split]]].
  - intros Hp k' Hk. rewrite update_evaluation_session, Hp. simpl.
    apply update_scores_absent, Hk.
  - intros Hp Hk. rewrite update_evaluation_session, Hp. simpl.
    rewrite update_scores_app.
    change (update_scores (update_scores (evaluation_scores s) before)
              ((k, v) :: after))
      with (update_scores (<[k := v]> (update_scores (evaluation_scores s) before))
              after).
    rewrite update_scores_absent by exact Hk. apply lookup_insert_eq.
  - intros Hp. rewrite update_evaluation_session, Hp. reflexivity.
  - intros m. apply update_evaluation_message.
  - intros Hsock. unfold update_evaluation, update_evaluation_prints.
    destruct (parsed call) as [scores|]; [|reflexivity].
    replace (websocket (set_evaluation_scores
                          (update_scores (evaluation_scores s) scores) s))
      with (websocket s) by reflexivity.
    rewrite Hsock.
    destruct (update_completes call); [|reflexivity].
    destruct (evaluation_sent call); [discriminate|reflexivity].
Qed.

Lemma update_evaluation_merges_witness :
  let call := {| parsed := Some [("clarity"%string, 3%Q);
                                 ("overall"%string, 6%Q);
                                 ("clarity"%string, 7%Q)];
                 update_completes := false;
                 evaluation_sent := true |} in
  let s := set_websocket true (init (lit "s1")) in
  evaluation_scores (update_evaluation s call).1 !! "originality"%string
    = Some 0%Q /\
  evaluation_scores (update_evaluation s call).1 !! "clarity"%string
    = Some 7%Q /\
  update_evaluation_prints s call = true.
Proof.
  intros call s.
  destruct (update_evaluation_merges s call
              [("clarity"%string, 3%Q); ("overall"%string, 6%Q)] []
              "clarity"%string 7%Q) as (_ & Hset & _ & _ & Hprint).
  destruct (update_evaluation_merges s call
              [("clarity"%string, 3%Q); ("overall"%string, 6%Q);
               ("clarity"%string, 7%Q)] []
              "clarity"%string 7%Q) as (Hkeep & _).
  split; [|split].
  - rewrite Hkeep; [reflexivity|reflexivity|].
    vm_compute. intros H. repeat (inversion H as [|? ? ? H']; clear H; rename H' into H).
  - apply Hset; [reflexivity|]. intros H. inversion H.
  - apply Hprint; reflexivity.
Defined.


Lemma update_scores_keeps_fields (m : gmap string Q) parsed k :
  is_Some (m !! k) -> is_Some (update_scores m parsed !! k).
Proof.
  revert m. induction parsed as [|[k' v] parsed IH]; intros m Hk; [exact Hk|].
  change (update_scores m ((k', v) :: parsed))
    with (update_scores (<[k' := v]> m) parsed).
  apply IH. destruct (decide (k' = k)) as [->|Hne].
  - rewrite lookup_insert_eq. eauto.
  - rewrite lookup_insert_ne by exact Hne. exact Hk.
Qed.

(** The attributes no audio ingestion writes, beside those of
    [audio_frame]. *)
Lemma add_audio_context_keeps_rest s files call :
  let s' := (add_audio_context s files call).1 in
  evaluation_scores s' = evaluation_scores s /\
  processing_queue s' = processing_queue s /\
  websocket s' = websocket s /\
  session_id s' = session_id s.
Proof.
  simpl. unfold add_audio_context.
  destruct (audio_bytes call) as [bytes|]; [|auto].
  destruct (length bytes <? 1000); [auto|].
  destruct (write_outcome call); [|auto|auto].
  destruct (transcribed call) as [text|]; [|auto].
  simpl. unfold ingest_transcription.
  destruct (strip text) as [|c rest]; [auto|].
  set (s4 := set_silence_start _ _).
  assert (E : evaluation_scores (extract_facts text s4) = evaluation_scores s /\
              processing_queue (extract_facts text s4) = processing_queue s /\
              websocket (extract_facts text s4) = websocket s /\
              session_id (extract_facts text s4) = session_id s).
  { unfold extract_facts, extract_name, extract_project.
    repeat case_match; simpl; auto. }
  repeat case_match; simpl; exact E.
Qed.

Lemma apply_op_keeps_scores s op :
  (forall parsed, op <> op_evaluate parsed) ->
  evaluation_scores (apply_op s op) = evaluation_scores s.
Proof.
  intros Hop. destruct op; simpl.
  - destruct (add_frame_context_shape s extracted) as [->|(c & r & ->)];
      reflexivity.
  - apply add_audio_context_keeps_rest.
  - destruct (generate_conversational_response_shape s now)
      as [->|[->|(st & ->)]]; reflexivity.
  - destruct (should_ask_question_shape s now) as [->| ->]; reflexivity.
  - pose proof (generate_question_shape s call) as H. simpl in H.
    destruct H as [->|(content & _ & _ & _ & ->)]; simpl;
      destruct (should_ask_question_shape s (now_check call)) as [->| ->];
      reflexivity.
  - exfalso. eapply Hop. reflexivity.
  - reflexivity.
  - reflexivity.
  - reflexivity.
  - reflexivity.
Qed.

Lemma run_scores_keep_fields s ops k :
  is_Some (evaluation_scores s !! k) ->
  is_Some (evaluation_scores (run s ops) !! k).
Proof.
  assert (Hstep : forall s0 op,
    is_Some (evaluation_scores s0 !! k) ->
    is_Some (evaluation_scores (apply_op s0 op) !! k)).
  { intros s0 op H0.
    destruct op as [| | | | |call| | | |];
      try (rewrite apply_op_keeps_scores by discriminate; exact H0).
    simpl. rewrite update_evaluation_session.
    destruct (parsed call) as [scores|]; [|exact H0].
    simpl. apply update_scores_keeps_fields, H0. }
  revert s. induction ops as [|op ops' IH]; intros s0 H0; [exact H0|].
  change (run s0 (op :: ops')) with (run (apply_op s0 op) ops').
  apply IH, Hstep, H0.
Qed.

Lemma initial_scores_fields k :
  k ∈ ["technical_depth"; "clarity"; "originality"; "understanding";
       "overall"]%string ->
  is_Some (initial_scores !! k).
Proof.
  intros Hk.
  repeat (apply elem_of_cons in Hk as [->|Hk]; [vm_compute; eauto|]).
  inversion Hk.
Qed.

(** X13: the score record never loses a field: a field that has a value
    keeps having one through every operation, so that the five fields set
    at creation are defined after any sequence of operations. *)
Theorem scores_keep_their_fields (s : InterviewSession) (ops : list Op)
    (sid : str) (k : string) :
  (is_Some (evaluation_scores s !! k) ->
   is_Some (evaluation_scores (run s ops) !! k)) /\
  (k ∈ ["technical_depth"; "clarity"; "originality"; "understanding";
        "overall"]%string ->
   is_Some (evaluation_scores (run (init sid) ops) !! k)).
Proof.
  split; [apply run_scores_keep_fields|].
  intros Hk. apply run_scores_keep_fields, initial_scores_fields, Hk.
Qed.

Lemma scores_keep_their_fields_witness :
  is_Some (evaluation_scores
             (run (init (lit "s1"))
                (interview ++ [op_evaluate (scored [("clarity"%string, 7%Q)])]))
             !! "overall"%string).
Proof.
  apply (scores_keep_their_fields (init (lit "s1")) _ (lit "s1")).
  apply list_elem_of_In. vm_compute. tauto.
Defined.

(** ** The dialogue state machine, again *)

(** X14: outside the presentation stage the dialogue state machine answers
    every call made at least 15 seconds after the last response, with a
    stage transition or a re-prompt, and stamps the call's clock reading;
    in the presentation stage it never does anything; and whenever it
    returns nothing it leaves the session as it is. *)
Theorem dialogue_responds_when_due (s : InterviewSession) (now : Q) :
  (interview_stage s <> presentation ->
   (last_response_time s + 15 <= now)%Q ->
   exists text s',
     generate_conversational_response s now = (Some text, s') /\
     last_response_time s' = now) /\
  (interview_stage s = presentation ->
   generate_conversational_response s now = (None, s)) /\
  ((generate_conversational_response s now).1 = None ->
   (generate_conversational_response s now).2 = s).
Proof.
  split; [|split].
  - intros Hst Hdue. unfold generate_conversational_response.
    destruct (Qltb (now - last_response_time s) 15) eqn:E;
      [apply Qltb_lt in E; lra|].
    assert (E5 : Qltb 5 (now - last_response_time s) = true)
      by (apply Qltb_lt; lra).
    rewrite E5.
    destruct (interview_stage s); [| | |congruence].
    + eauto.
    + destruct (student_name s); eauto.
    + destruct (50 <? length (transcript s)); eauto.
  - intros Hst. unfold generate_conversational_response. rewrite Hst.
    destruct (Qltb (now - last_response_time s) 15); reflexivity.
  - destruct (generate_conversational_response_cases s now)
      as [-> | (text & s' & -> & _)]; [reflexivity|discriminate].
Qed.

Lemma dialogue_responds_when_due_witness :
  let s := run (init (lit "s1")) (take 2 interview) in
  (exists text s',
     generate_conversational_response s 1015 = (Some text, s') /\
     last_response_time s' = 1015%Q) /\
  generate_conversational_response (run (init (lit "s1")) interview) 2000
    = (None, run (init (lit "s1")) interview).
Proof.
  split.
  - apply (dialogue_responds_when_due
             (run (init (lit "s1")) (take 2 interview)) 1015).
    + vm_compute. discriminate.
    + vm_compute. discriminate.
  - apply (dialogue_responds_when_due (run (init (lit "s1")) interview) 2000).
    vm_compute. reflexivity.
Defined.

(** The re-prompt of the stage awaiting_name, 15 seconds after the
    greeting. *)
Example name_reprompt :
  (generate_conversational_response
     (run (init (lit "s1")) (take 2 interview)) 1015).1 = Some name_again_text.
Proof. vm_compute. reflexivity. Qed.


(** ** What the extraction takes for a name *)

Lemma after_marker_first markers pre m next rest :
  (forall w, w ∈ pre -> lower w ∉ markers) ->
  lower m ∈ markers ->
  after_marker markers (pre ++ m :: next :: rest) = Some (next :: rest).
Proof.
  intros Hpre Hm. induction pre as [|w pre IH]; simpl.
  - rewrite bool_decide_eq_true_2 by exact Hm. reflexivity.
  - rewrite bool_decide_eq_false_2 by (apply Hpre; left).
    apply IH. intros w' Hw'. apply Hpre. right. exact Hw'.
Qed.

Lemma ingest_transcription_facts text t1 t2 s :
  strip text <> [] ->
  student_name (ingest_transcription text t1 t2 s) =
    student_name
      (extract_facts text
         (set_silence_start None
            (set_has_spoken_recently true
               (set_last_speech_time t1
                  (set_transcript (transcript s ++ lit " " ++ strip text) s))))) /\
  project_name (ingest_transcription text t1 t2 s) =
    project_name
      (extract_facts text
         (set_silence_start None
            (set_has_spoken_recently true
               (set_last_speech_time t1
                  (set_transcript (transcript s ++ lit " " ++ strip text) s))))).
Proof.
  intros Hs. unfold ingest_transcription.
  destruct (strip text) as [|c r] eqn:E; [congruence|].
  set (s5 := extract_facts text _). clearbody s5.
  destruct (waiting_for_answer s5); simpl;
    match goal with |- context [if ?b then _ else _] => destruct b end;
    simpl; auto.
Qed.

(** X15: what the extraction takes for the names. In the stage
    awaiting_name the name is the word that follows the first of the
    markers "i'm", "im", "name", "called" (in any case) that is followed
    by a word, with its leading and trailing punctuation removed, whatever
    that word is; only when nothing is left of it is the first word of the
    text taken. In the stage project_intro, when the text mentions
    "project", "built" or "created", the project name is made of the
    three words at most that follow the first of the markers "project",
    "called", "named". *)
Theorem facts_follow_first_marker (s : InterviewSession) (text : str)
    (t1 t2 : Q) (pre : list str) (m next : str) (rest : list str) :
  split text = pre ++ m :: next :: rest ->
  (interview_stage s = awaiting_name ->
   (forall w, w ∈ pre -> lower w ∉ name_markers) ->
   lower m ∈ name_markers ->
   student_name (ingest_transcription text t1 t2 s) =
     match strip_punct next with
     | [] => strip_punct (hd m pre)
     | name => name
     end) /\
  (interview_stage s = project_intro ->
   contains (lit "project") (lower text) || contains (lit "built") (lower text)
     || contains (lit "created") (lower text) = true ->
   (forall w, w ∈ pre -> lower w ∉ project_markers) ->
   lower m ∈ project_markers ->
   project_name (ingest_transcription text t1 t2 s) =
     strip_punct (join (lit " ") (take 3 (next :: rest)))).
Proof.
  intros Hsplit.
  assert (Hs : strip text <> []).
  { intros E. apply split_nil_iff_strip_nil in E. rewrite E in Hsplit.
    destruct pre; discriminate Hsplit. }
  destruct (ingest_transcription_facts text t1 t2 s Hs) as (-> & ->).
  set (s4 := set_silence_start None _).
  assert (E4 : interview_stage s4 = interview_stage s) by reflexivity.
  clearbody s4. unfold extract_facts. rewrite E4.
  split.
  - intros -> Hpre Hm. unfold extract_name.
    rewrite Hsplit, (after_marker_first _ _ _ _ _ Hpre Hm).
    destruct (strip_punct next) as [|c r] eqn:En.
    + replace (student_name (set_student_name [] s4)) with (@nil ascii)
        by (destruct s4; reflexivity).
      destruct pre; reflexivity.
    + replace (student_name (set_student_name (c :: r) s4)) with (c :: r)
        by (destruct s4; reflexivity).
      destruct (pre ++ m :: next :: rest); reflexivity.
  - intros -> Hc Hpre Hm. unfold extract_project.
    rewrite Hc, Hsplit, (after_marker_first _ _ _ _ _ Hpre Hm).
    reflexivity.
Qed.

Lemma facts_follow_first_marker_witness :
  student_name
    (ingest_transcription (lit "My name is Alex.") 1005 1005
       (set_interview_stage awaiting_name (init (lit "s1"))))
  = lit "is".
Proof.
  apply (facts_follow_first_marker
           (set_interview_stage awaiting_name (init (lit "s1")))
           (lit "My name is Alex.") 1005 1005
           [lit "My"] (lit "name") (lit "is") [lit "Alex."]).
  - vm_compute. reflexivity.
  - reflexivity.
  - intros w Hw. apply list_elem_of_singleton in Hw as ->.
    vm_compute. intros H. apply list_elem_of_In in H. simpl in H.
    repeat (destruct H as [H|H]; [discriminate H|]). exact H.
  - apply list_elem_of_In. vm_compute. tauto.
Defined.


(** ** The worker: the queue *)

Lemma keeps_queue_at_ret {A} w (x : A) : keeps_queue_at w (mret x).
Proof. intros w' r [= <- _]. reflexivity. Qed.

Lemma keeps_queue_at_raise {A} w : keeps_queue_at w (@raise A).
Proof. intros w' r [= <- _]. reflexivity. Qed.

Lemma keeps_queue_at_emit w a : keeps_queue_at w (emit a).
Proof. intros w' r [= <- _]. reflexivity. Qed.

Lemma keeps_queue_at_send w ok m : keeps_queue_at w (send ok m).
Proof. destruct ok; [apply keeps_queue_at_emit|apply keeps_queue_at_raise]. Qed.

Lemma keeps_queue_at_report w printed m : keeps_queue_at w (report printed m).
Proof.
  destruct printed; [apply keeps_queue_at_emit|apply keeps_queue_at_ret].
Qed.

Lemma keeps_queue_at_set_greeting_sent w : keeps_queue_at w set_greeting_sent.
Proof. intros w' r [= <- _]. reflexivity. Qed.

Lemma keeps_queue_at_put_session w s :
  processing_queue s = processing_queue (session w) ->
  keeps_queue_at w (put_session s).
Proof. intros H w' r [= <- _]. exact H. Qed.

Lemma keeps_queue_at_bind {A B} w (m : M A) (f : A -> M B) :
  keeps_queue_at w m ->
  (forall w1 x, m w = (w1, Some x) -> keeps_queue_at w1 (f x)) ->
  keeps_queue_at w (m ≫= f).
Proof.
  intros Hm Hf w' r. unfold mbind, M_bind.
  destruct (m w) as [w1 [x|]] eqn:E.
  - intros H. rewrite (Hf _ _ eq_refl _ _ H). apply (Hm _ _ E).
  - intros [= <- _]. apply (Hm _ _ E).
Qed.

Lemma keeps_queue_at_get_bind {B} w (f : InterviewSession -> M B) :
  keeps_queue_at w (f (session w)) -> keeps_queue_at w (get_session ≫= f).
Proof.
  intros H. apply keeps_queue_at_bind.
  - intros w' r [= <- _]. reflexivity.
  - intros w1 x [= <- <-]. exact H.
Qed.

Lemma keeps_queue_at_seq {A B} w (m : M A) (k : M B) :
  keeps_queue_at w m -> (forall w1, keeps_queue_at w1 k) ->
  keeps_queue_at w (m ;; k).
Proof.
  intros Hm Hk. apply keeps_queue_at_bind; [exact Hm|]. intros w1 x _. apply Hk.
Qed.

Lemma apply_op_keeps_queue s op :
  (forall data, op <> op_put data) -> op <> op_get ->
  processing_queue (apply_op s op) = processing_queue s.
Proof.
  intros Hput Hget. destruct op; simpl.
  - destruct (add_frame_context_shape s extracted) as [->|(c & r & ->)];
      reflexivity.
  - apply add_audio_context_keeps_rest.
  - destruct (generate_conversational_response_shape s now)
      as [->|[->|(st & ->)]]; reflexivity.
  - destruct (should_ask_question_shape s now) as [->| ->]; reflexivity.
  - pose proof (generate_question_shape s call) as H. simpl in H.
    destruct H as [->|(content & _ & _ & _ & ->)]; simpl;
      destruct (should_ask_question_shape s (now_check call)) as [->| ->];
      reflexivity.
  - destruct (update_evaluation_shape s call) as [->|(m & ->)]; reflexivity.
  - reflexivity.
  - reflexivity.
  - exfalso. eapply Hput. reflexivity.
  - exfalso. apply Hget. reflexivity.
Qed.

Lemma keeps_queue_at_greeting_step c w : keeps_queue_at w (greeting_step c).
Proof.
  intros w' r. unfold greeting_step.
  destruct (negb (greeting_sent w) && websocket (session w));
    [|intros [= <- _]; reflexivity].
  revert w' r. change (keeps_queue_at w
    (emit (act_sleep 2);;
     s ← get_session;
     let '(greeting_msg, s') := generate_conversational_response s (now_greeting c) in
     put_session s';;
     match greeting_msg with
     | Some text => send (send_greeting_ok c) (msg_question text);; set_greeting_sent
     | None => mret tt
     end)).
  apply keeps_queue_at_bind; [apply keeps_queue_at_emit|]. intros w1 ? _.
  apply keeps_queue_at_get_bind.
  pose proof (apply_op_keeps_queue (session w1) (op_advance (now_greeting c))
                ltac:(discriminate) ltac:(discriminate)) as Hq.
  simpl in Hq.
  destruct (generate_conversational_response (session w1) (now_greeting c))
    as [msg s'].
  apply keeps_queue_at_seq; [apply keeps_queue_at_put_session, Hq|]. intros w2.
  destruct msg.
  - apply keeps_queue_at_seq; [apply keeps_queue_at_send|]. intros w3.
    apply keeps_queue_at_set_greeting_sent.
  - apply keeps_queue_at_ret.
Qed.

Lemma keeps_queue_at_handle_event c data w : keeps_queue_at w (handle_event c data).
Proof.
  unfold handle_event.
  destruct (bool_decide (ev_type data = lit "frame")).
  { apply keeps_queue_at_get_bind, keeps_queue_at_seq;
      [|intros w1; apply keeps_queue_at_report].
    apply keeps_queue_at_put_session.
    apply (apply_op_keeps_queue _ (op_frame (frame_text c))); discriminate. }
  destruct (bool_decide (ev_type data = lit "audio")); [|apply keeps_queue_at_ret].
  apply keeps_queue_at_bind.
  { intros w' r.
    pose proof (add_audio_context_keeps_rest (session w) (temp_files w)
                  (audio_call c)) as (_ & Hq & _).
    destruct (add_audio_context (session w) (temp_files w) (audio_call c)).
    intros [= <- _]. exact Hq. }
  intros w0 ? _. apply keeps_queue_at_seq; [apply keeps_queue_at_report|].
  intros w1. apply keeps_queue_at_get_bind.
  destruct (bool_decide (interview_stage (session w1) ∈ [awaiting_name; project_intro])).
  { apply keeps_queue_at_bind; [apply keeps_queue_at_emit|]. intros w2 ? [= <-].
    pose proof (apply_op_keeps_queue (session w1) (op_advance (now_response c))
                  ltac:(discriminate) ltac:(discriminate)) as Hq.
    simpl in Hq.
    destruct (generate_conversational_response (session w1) (now_response c))
      as [response s'].
    apply keeps_queue_at_seq; [apply keeps_queue_at_put_session, Hq|]. intros w3.
    destruct response; [|apply keeps_queue_at_ret].
    destruct (websocket s'); [apply keeps_queue_at_send|apply keeps_queue_at_ret]. }
  destruct (bool_decide (interview_stage (session w1) = presentation));
    [|apply keeps_queue_at_ret].
  pose proof (apply_op_keeps_queue (session w1) (op_question (question_call c))
                ltac:(discriminate) ltac:(discriminate)) as Hq.
  simpl in Hq.
  destruct (generate_question (session w1) (question_call c)) as [question s'].
  apply keeps_queue_at_seq; [apply keeps_queue_at_put_session, Hq|]. intros w3.
  apply keeps_queue_at_seq; [apply keeps_queue_at_report|]. intros w4.
  destruct question; [|apply keeps_queue_at_ret].
  destruct (websocket s'); [apply keeps_queue_at_send|apply keeps_queue_at_ret].
Qed.

Lemma keeps_queue_at_evaluation_step c w : keeps_queue_at w (evaluation_step c).
Proof.
  unfold evaluation_step. apply keeps_queue_at_get_bind.
  destruct (evaluation_due (session w) (now_evaluation c));
    [|apply keeps_queue_at_ret].
  apply keeps_queue_at_bind; [apply keeps_queue_at_emit|]. intros w2 ? [= <-].
  pose proof (apply_op_keeps_queue (session w) (op_evaluate (evaluation_call c))
                ltac:(discriminate) ltac:(discriminate)) as Hq.
  simpl in Hq.
  destruct (update_evaluation (session w) (evaluation_call c)) as [s' m].
  apply keeps_queue_at_seq; [apply keeps_queue_at_put_session, Hq|]. intros w3.
  apply keeps_queue_at_seq; [|intros w4; apply keeps_queue_at_report].
  destruct m; [apply keeps_queue_at_emit|apply keeps_queue_at_ret].
Qed.

Lemma keeps_queue_at_decay_step c w : keeps_queue_at w (decay_step c).
Proof.
  unfold decay_step. apply keeps_queue_at_get_bind.
  destruct (has_spoken_recently (session w) && _); [|apply keeps_queue_at_ret].
  apply keeps_queue_at_put_session. reflexivity.
Qed.

(** The queue after the guarded block is the queue before it without its
    oldest item, whether the handling of the item raises or not. *)
Lemma queue_step_takes_one c w w' r :
  queue_step c w = (w', r) ->
  processing_queue (session w') = tail (processing_queue (session w)).
Proof.
  unfold queue_step. unfold mbind at 1. unfold M_bind at 1.
  unfold get_session at 1.
  destruct (processing_queue (session w)) as [|data rest] eqn:Hq.
  - intros [= <- _]. rewrite Hq. reflexivity.
  - intros H.
    assert (Hk : keeps_queue_at
              {| session := set_processing_queue rest (session w);
                 greeting_sent := greeting_sent w;
                 temp_files := temp_files w; trace := trace w |}
              (handle_event c data;; evaluation_step c)).
    { apply keeps_queue_at_seq; [apply keeps_queue_at_handle_event|].
      intros w1. apply keeps_queue_at_evaluation_step. }
    unfold mbind at 1 in H. unfold M_bind at 1 in H.
    simpl in H. apply Hk in H. exact H.
Qed.

(** X16: an iteration of the worker whose greeting step does not raise
    takes exactly one item from the queue, the oldest one, after the
    arrivals have joined the queue at its end; it does so even when the
    handling of the item raises. *)
Theorem tick_takes_oldest_event (w : Worker) (c : TickCalls) (w0 : Worker) :
  greeting_step c w = (w0, Some tt) ->
  processing_queue (session (tick w c)) =
    tail (processing_queue (session w) ++ arrivals c).
Proof.
  intros Hg.
  pose proof (keeps_queue_at_greeting_step c w _ _ Hg) as Hq0.
  unfold tick, tick_body.
  rewrite <- (bind_assoc (enqueue (arrivals c)) (fun _ => greeting_step c)
                (fun _ => queue_step c;; decay_step c;;
                          emit (act_sleep (1 # 10)))).
  unfold mbind at 1. unfold M_bind at 1.
  rewrite enqueue_greeting_step, Hg. cbn [fst snd].
  assert (Hq1 : processing_queue (session (enqueue (arrivals c) w0).1)
                = processing_queue (session w) ++ arrivals c).
  { unfold enqueue, mbind, M_bind, get_session, put_session. simpl.
    rewrite Hq0. reflexivity. }
  set (w1 := (enqueue (arrivals c) w0).1) in *. clearbody w1.
  unfold mbind at 1. unfold M_bind at 1.
  destruct (queue_step c w1) as [w2 r2] eqn:Hs.
  apply queue_step_takes_one in Hs. rewrite Hq1 in Hs.
  destruct r2 as [[]|]; [|simpl; exact Hs].
  destruct ((decay_step c;; emit (act_sleep (1 # 10))) w2) as [w3 r3] eqn:Hd.
  assert (Hq3 : processing_queue (session w3) = processing_queue (session w2)).
  { revert Hd. apply keeps_queue_at_seq; [apply keeps_queue_at_decay_step|].
    intros w'. apply keeps_queue_at_emit. }
  destruct r3; simpl; rewrite Hq3; exact Hs.
Qed.

Lemma tick_takes_oldest_event_witness :
  processing_queue
    (session (tick idle_worker
                (calls_at_120 [frame_event;
                               {| ev_type := lit "audio"; ev_content := [] |}])))
  = [{| ev_type := lit "audio"; ev_content := [] |}].
Proof.
  apply (tick_takes_oldest_event idle_worker
           (calls_at_120 [frame_event;
                          {| ev_type := lit "audio"; ev_content := [] |}])
           idle_worker).
  reflexivity.
Defined.


(** ** The worker: the trace *)


































(** An iteration on a frame whose OCR fails, with an evaluation whose send
    is refused: the method prints the OCR error, the evaluation message
    does not go out and its error is printed, and the iteration ends with
    its usual sleep. *)
Example tick_with_swallowed_failures :
  trace (tick idle_worker failing_calls) =
    [act_report in_add_frame_context; act_evaluate;
     act_report in_update_evaluation; act_sleep (1 # 10)].
Proof. vm_compute. reflexivity. Qed.

(** ** The worker: a greeting whose send fails *)

Lemma Qltb_false x y : (y <= x)%Q -> Qltb x y = false.
Proof.
  intros H. unfold Qltb. apply negb_false_iff, Qle_bool_iff. exact H.
Qed.

(** Outside the greeting stage the state machine never says the greeting. *)
Lemma no_greeting_after_stage s now :
  interview_stage s <> greeting ->
  (generate_conversational_response s now).1 <> Some greeting_text.
Proof.
  intros Hst. unfold generate_conversational_response.
  destruct (Qltb (now - last_response_time s) 15); [discriminate|].
  destruct (interview_stage s); [congruence| | |discriminate].
  - destruct (student_name s).
    + destruct (Qltb 5 _); simpl; [|discriminate].
      unfold name_again_text, greeting_text. simpl. discriminate.
    + simpl. unfold nice_to_meet_text, greeting_text. simpl. discriminate.
  - destruct (50 <? length (transcript s)).
    + simpl. unfold thank_you_text, greeting_text. simpl. discriminate.
    + destruct (Qltb 5 _); simpl; [|discriminate].
      unfold more_detail_text, greeting_text. simpl. discriminate.
Qed.

(** X18: the greeting is lost when its send raises. The worker calls the
    state machine before it sends: when the send of the greeting raises,
    the stage has already moved to awaiting_name and the response is time
    stamped, the flag [greeting_sent] is still unset, and the iteration
    ends in the handler of the loop; the session is otherwise as before,
    with the arrivals on its queue. No later call of the state machine,
    after any operations on the session, produces the greeting again. *)
Theorem greeting_lost_when_send_fails (w : Worker) (c : TickCalls) :
  greeting_sent w = false ->
  websocket (session w) = true ->
  interview_stage (session w) = greeting ->
  (last_response_time (session w) + 15 <= now_greeting c)%Q ->
  send_greeting_ok c = false ->
  trace (tick w c) = trace w ++ [act_sleep 2; act_print; act_sleep 1] /\
  greeting_sent (tick w c) = false /\
  session (tick w c) =
    set_processing_queue (processing_queue (session w) ++ arrivals c)
      (set_last_response_time (now_greeting c)
         (set_interview_stage awaiting_name (session w))) /\
  forall ops now,
    (generate_conversational_response (run (session (tick w c)) ops) now).1
      <> Some greeting_text.
Proof.
  intros Hsent Hsock Hstage Hdue Hfail.
  assert (Hg : greeting_step c w =
    ({| session := set_last_response_time (now_greeting c)
                     (set_interview_stage awaiting_name (session w));
        greeting_sent := false;
        temp_files := temp_files w;
        trace := trace w ++ [act_sleep 2] |}, None)).
  { unfold greeting_step. rewrite Hsent, Hsock. simpl.
    unfold mbind at 1. unfold M_bind at 1. simpl.
    unfold mbind at 1. unfold M_bind at 1. simpl.
    unfold generate_conversational_response.
    rewrite Qltb_false by lra. rewrite Hstage.
    unfold mbind at 1. unfold M_bind at 1. simpl.
    rewrite Hfail. simpl. rewrite Hsent. reflexivity. }
  assert (Htick : tick w c =
    {| session :=
         set_processing_queue (processing_queue (session w) ++ arrivals c)
           (set_last_response_time (now_greeting c)
              (set_interview_stage awaiting_name (session w)));
       greeting_sent := false;
       temp_files := temp_files w;
       trace := trace w ++ [act_sleep 2; act_print; act_sleep 1] |}).
  { unfold tick, tick_body.
    rewrite <- (bind_assoc (enqueue (arrivals c)) (fun _ => greeting_step c)
                  (fun _ => queue_step c;; decay_step c;;
                            emit (act_sleep (1 # 10)))).
    unfold mbind at 1. unfold M_bind at 1.
    rewrite enqueue_greeting_step, Hg. simpl.
    rewrite <- !app_assoc. reflexivity. }
  rewrite Htick. simpl. repeat split.
  intros ops now. apply no_greeting_after_stage.
  pose proof (run_stage_rank
    (set_processing_queue (processing_queue (session w) ++ arrivals c)
       (set_last_response_time (now_greeting c)
          (set_interview_stage awaiting_name (session w)))) ops) as Hrank.
  intros E. rewrite E in Hrank. simpl in Hrank. lia.
Qed.

Lemma greeting_lost_when_send_fails_witness :
  session
    (tick fresh_worker
       {| now_greeting := 120; send_greeting_ok := false;
          arrivals := [frame_event];
          frame_text := None; audio_call := speech "hello" 120;
          now_response := 120;
          question_call := {| now_check := 120; generated := None;
                              now_asked := 120 |};
          send_ok := true; now_evaluation := 120;
          evaluation_call := unscored; now_decay := 120 |})
  = set_processing_queue [frame_event]
      (set_last_response_time 120
         (set_interview_stage awaiting_name (session fresh_worker))).
Proof.
  destruct (greeting_lost_when_send_fails fresh_worker
    {| now_greeting := 120; send_greeting_ok := false;
       arrivals := [frame_event];
       frame_text := None; audio_call := speech "hello" 120;
       now_response := 120;
       question_call := {| now_check := 120; generated := None;
                           now_asked := 120 |};
       send_ok := true; now_evaluation := 120;
       evaluation_call := unscored; now_decay := 120 |}) as (_ & _ & -> & _);
    try reflexivity.
  vm_compute. discriminate.
Defined.


(** ** The registry, the socket handler and the HTTP routes *)

Lemma endpoint_receive_closes sid r reg :
  r = recv_disconnect \/ r = recv_text None \/
  (exists message, r = recv_text (Some message) /\
     (message !! "type"%string = None \/ message !! "data"%string = None)) ->
  endpoint_receive sid r reg = delete sid reg.
Proof.
  intros [-> | [-> | (message & -> & H)]]; try reflexivity.
  unfold endpoint_receive, event_of.
  destruct H as [-> | H]; [reflexivity|].
  destruct (message !! "type"%string); simpl; [rewrite H|]; reflexivity.
Qed.

(** X19: a connection that ends leaves no session behind. When the client
    disconnects, or sends a text that is not a JSON object or that lacks
    the key "type" or "data", the handler removes its session from the
    registry: a report asked for it afterwards is the error "Session not
    found", whatever the completion would reply, the health route counts
    one session less, and the other sessions are untouched. *)
Theorem closed_session_not_found (reg : Registry) (sid : str) (r : Received)
    (reply : Reply) (later : list Op) :
  r = recv_disconnect \/ r = recv_text None \/
  (exists message, r = recv_text (Some message) /\
     (message !! "type"%string = None \/ message !! "data"%string = None)) ->
  generate_report (endpoint_receive sid r reg) sid reply later
    = resp_error (lit "Session not found") /\
  (is_Some (reg !! sid) ->
   S (health_check (endpoint_receive sid r reg)).2 = (health_check reg).2) /\
  (forall sid', sid' <> sid -> endpoint_receive sid r reg !! sid' = reg !! sid').
Proof.
  intros Hr. rewrite (endpoint_receive_closes sid r reg Hr).
  split; [|split].
  - unfold generate_report. rewrite lookup_delete_eq. reflexivity.
  - intros [w Hw]. unfold health_check. simpl.
    rewrite <- (insert_delete_id reg sid w Hw) at 2.
    rewrite map_size_insert_None by apply lookup_delete_eq. reflexivity.
  - intros sid' Hne. apply lookup_delete_ne. congruence.
Qed.

Lemma closed_session_not_found_witness :
  generate_report
    (endpoint_receive (lit "s1")
       (recv_text (Some {[ "type"%string := lit "frame" ]}))
       (endpoint_open (lit "s1") true ∅))
    (lit "s1") (reply_content (lit "fine")) []
  = resp_error (lit "Session not found").
Proof.
  apply closed_session_not_found.
  right. right. eexists. split; [reflexivity|]. right. reflexivity.
Defined.

Lemma served_empty : served ∅.
Proof. intros sid w H. rewrite lookup_empty in H. discriminate H. Qed.

Lemma served_delete sid reg : served reg -> served (delete sid reg).
Proof.
  intros Hreg sid' w H. apply lookup_delete_Some in H as [_ H].
  apply (Hreg _ _ H).
Qed.

Lemma served_alter (f : Worker -> Worker) sid reg :
  (forall w, reaches (session w) (session (f w))) ->
  served reg -> served (alter f sid reg).
Proof.
  intros Hf Hreg sid' w H.
  apply lookup_alter_Some in H as [(<- & w0 & H0 & ->) | (_ & H)].
  - eapply reaches_trans; [apply (Hreg _ _ H0)|apply Hf].
  - apply (Hreg _ _ H).
Qed.

Lemma served_step reg st : served reg -> served (server_step reg st).
Proof.
  intros Hreg. destruct st as [sid sent|sid r|sid c]; simpl.
  - assert (Hin : served (<[sid := new_worker sid]> reg)).
    { intros sid' w H. apply lookup_insert_Some in H as [(<- & <-) | (_ & H)].
      - apply (reaches_step _ _ op_attach), reaches_refl.
      - apply (Hreg _ _ H). }
    unfold endpoint_open. destruct sent; [exact Hin|].
    apply served_delete, Hin.
  - unfold endpoint_receive.
    destruct r as [|[message|]]; try (apply served_delete, Hreg).
    destruct (event_of message) as [ev|]; [|apply served_delete, Hreg].
    apply served_alter; [|exact Hreg].
    intros w. apply (reaches_step _ _ (op_put ev)), reaches_refl.
  - apply served_alter; [|exact Hreg]. intros w. apply tick_reaches.
Qed.

Lemma served_serve steps : served (serve steps).
Proof.
  unfold serve. induction steps as [|st steps IH] using rev_ind.
  - apply served_empty.
  - rewrite foldl_app. simpl. apply served_step, IH.
Qed.

(** X20: what a report can say of a session that the server has served.
    After any steps of the server (connections opening, handlers
    receiving, workers iterating), a report whose completion call
    returns is the error "Session not found" or carries the identifier
    asked for and the text of the completion, at most five questions, no
    more answers than questions, and a score for each of the five
    fields. *)
Theorem report_of_served_session (steps : list ServerStep) (sid : str)
    (report : str) (later : list Op) :
  generate_report (serve steps) sid (reply_content report) later
    = resp_error (lit "Session not found") \/
  exists scores asked pairs student project,
    generate_report (serve steps) sid (reply_content report) later
      = resp_report sid report scores asked pairs student project /\
    asked <= 5 /\
    length pairs <= asked /\
    forall k, k ∈ ["technical_depth"; "clarity"; "originality";
                   "understanding"; "overall"]%string ->
              is_Some (scores !! k).
Proof.
  unfold generate_report.
  destruct (serve steps !! sid) as [w|] eqn:Hw; [right|left; reflexivity].
  apply served_serve in Hw. apply reaches_run in Hw as (ops & Hops).
  assert (E : run (session w) later = run (init sid) (ops ++ later))
    by (rewrite Hops; unfold run; rewrite foldl_app; reflexivity).
  rewrite E. do 5 eexists. split; [reflexivity|]. split; [|split].
  - apply run_questions_bounded. simpl. lia.
  - pose proof (answers_follow_questions_count _
      (run_answers_follow_questions (init sid) (ops ++ later) eq_refl)).
    lia.
  - intros k Hk. apply run_scores_keep_fields, initial_scores_fields, Hk.
Qed.

Lemma report_of_served_session_witness :
  exists scores asked pairs student project,
    generate_report (serve [sv_open (lit "s1") true]) (lit "s1")
      (reply_content (lit "fine")) []
      = resp_report (lit "s1") (lit "fine") scores asked pairs student project /\
    is_Some (scores !! "overall"%string).
Proof.
  destruct (report_of_served_session [sv_open (lit "s1") true] (lit "s1")
              (lit "fine") [])
    as [H | (scores & asked & pairs & student & project & H & _ & _ & Hk)].
  - vm_compute in H. discriminate H.
  - exists scores, asked, pairs, student, project. split; [exact H|].
    apply Hk. apply list_elem_of_In. vm_compute. tauto.
Defined.
